(** * Go-Back-N over UDP: sequence numbers, packets, buffers, timers, sender

    A shallow embedding of [packet.py] and [gbn.py] and the properties of
    the protocol engine that are checked against them.

    Python integers are [Z]; [bytes]/[bytearray] are [list byte]; a raised
    exception is the [Raise] case of [result]; a [while] loop is a
    fuel-indexed [Fixpoint] together with a lemma that the fuel used by the
    embedding is enough; a [dict] is an association list in insertion
    order; a reading of the clock is a rational ([Q] holds every finite
    float; comparisons are exact, the one addition, in [start_timer], is
    not rounded). *)

From Stdlib Require Import ZArith QArith List Bool Lia.
From Stdlib Require Import Strings.Byte.
From Stdlib Require Strings.String.
Import ListNotations.
Import String.StringSyntax.
Delimit Scope string_scope with string.

Local Close Scope Q_scope.
Local Open Scope Z_scope.

(* ================================================================== *)
(** * Part I. The embedding *)
(* ================================================================== *)

(** ** Exceptions *)

Inductive exn : Type :=
| TypeError
| ValueError
| KeyError
| AttributeError
| AssertionError
| IndexError
| OSError.

Inductive result (A : Type) : Type :=
| Ok (a : A)
| Raise (e : exn).

Arguments Ok {A} a.
Arguments Raise {A} e.

Definition bind {A B : Type} (r : result A) (k : A -> result B) : result B :=
  match r with
  | Ok a => k a
  | Raise e => Raise e
  end.

Notation "'do' x <- r ; k" := (bind r (fun x => k))
  (at level 10, x name, r at level 100, k at level 200).

(** ** packet.py: class Seq *)

Module Seq.

(** [MOD = 1 << 8], [HALF = MOD >> 1]. *)
Definition MOD : Z := Z.shiftl 1 8.
Definition HALF : Z := Z.shiftr MOD 1.

Record t : Type := mk { seq : Z }.

(** [Seq.__init__]: [self.seq = number % Seq.MOD]. *)
Definition new (number : Z) : t := mk (number mod MOD).

(** [__int__] *)
Definition to_int (self : t) : Z := seq self.

(** [__add__]: forward [n] steps. *)
Definition add (self : t) (n : Z) : t := new (seq self + n).

(** [__sub__]: backward [n] steps. *)
Definition sub (self : t) (n : Z) : t := new (seq self - n).

(** [__eq__] *)
Definition eq (self other : t) : bool := seq self =? seq other.

(** [__lt__] *)
Definition lt (self other : t) : bool :=
  ((seq self <? seq other) && (seq other - seq self <? HALF))
  || ((seq self >? seq other) && (seq self - seq other >? HALF)).

(** [__ne__], [__ge__], [__le__], [__gt__] *)
Definition ne (self other : t) : bool := negb (eq self other).
Definition ge (self other : t) : bool := negb (lt self other).
Definition le (self other : t) : bool := lt self other || eq self other.
Definition gt (self other : t) : bool := negb (le self other).

(** The values the constructor can produce. *)
Definition wf (s : t) : Prop := 0 <= seq s < MOD.

End Seq.

(** ** packet.py: srange

    [seq = Seq(start.seq); while seq != end: yield seq; seq += 1].
    The generator is embedded as the list of the values it yields; [None]
    is a loop that has not met [end] when the fuel is spent. *)

Fixpoint srange_loop (fuel : nat) (seq end_ : Seq.t) : option (list Seq.t) :=
  match fuel with
  | O => None
  | S fuel' =>
      if Seq.ne seq end_
      then option_map (cons seq) (srange_loop fuel' (Seq.add seq 1) end_)
      else Some []
  end.

(** The loop leaves after at most [MOD] yields when [end] was built by
    [Seq]; [srange_loop_fuel] below shows any larger fuel gives the same
    list. *)
Definition srange (start end_ : Seq.t) : option (list Seq.t) :=
  srange_loop (S (Z.to_nat Seq.MOD)) (Seq.new (Seq.seq start)) end_.

(** ** packet.py: class Type(IntFlag) *)

Module PType.

Inductive t : Type := DATA | ACK | FIN.

Definition value (k : t) : Z :=
  match k with
  | DATA => 1
  | ACK => 2
  | FIN => 4
  end.

End PType.

(** ** packet.py: class Packet *)

(** The integer a byte of a [bytes]/[bytearray] reads as. *)
Definition byte_val (b : byte) : Z := Z.of_N (Byte.to_N b).

(** An element of [bytearray([...])]: [ValueError] outside [range(256)]. *)
Definition to_byte (n : Z) : result byte :=
  if (0 <=? n) && (n <? 256)
  then match Byte.of_N (Z.to_N n) with
       | Some b => Ok b
       | None => Raise ValueError
       end
  else Raise ValueError.

Record Packet : Type := mkPacket { pdu : list byte }.

(** The [for i in range(0, len(pdu), 2)] loop of [ichecksum]: two bytes
    at a time, [(pdu[i] << 8) + pdu[i+1]], and a last byte without a
    partner ([i + 1 >= len(pdu)]) added as [pdu[i]]. *)
Fixpoint sum_words (pdu : list byte) (sum : Z) : Z :=
  match pdu with
  | [] => sum
  | [b] => sum + byte_val b
  | b0 :: b1 :: rest =>
      sum_words rest (sum + (Z.shiftl (byte_val b0) 8 + byte_val b1))
  end.

(** [while (sum >> 16) > 0: sum = (sum & 0xFFFF) + (sum >> 16)]. *)
Fixpoint fold_carries (fuel : nat) (sum : Z) : Z :=
  match fuel with
  | O => sum
  | S fuel' =>
      if Z.shiftr sum 16 >? 0
      then fold_carries fuel' (Z.land sum 0xFFFF + Z.shiftr sum 16)
      else sum
  end.

(** [Packet.ichecksum(self, sum=0)].  Each pass of the [while] loop makes
    [sum] smaller, so [sum] passes are enough: [fold_carries_exit] shows
    the loop condition is false on the value returned. *)
Definition ichecksum (self : Packet) (sum : Z) : Z :=
  let sum := sum_words (pdu self) sum in
  let sum := fold_carries (Z.to_nat sum) sum in
  let sum := Z.lnot sum in
  Z.land sum 0xFFFF.

(** [Packet.extract] *)
Definition extract (self : Packet) : list byte := skipn 4 (pdu self).

(** [Packet.corrupt]: [self.ichecksum() != 0]. *)
Definition corrupt (self : Packet) : bool := negb (ichecksum self 0 =? 0).

(** [Packet.__getattr__] for ['type'] and ['seq']; [pdu[0]] and [pdu[1]]
    raise [IndexError] on a shorter pdu, which is [None] here. *)
Definition packet_type (self : Packet) : option Z :=
  option_map byte_val (nth_error (pdu self) 0).

Definition packet_seq (self : Packet) : option Seq.t :=
  option_map (fun b => Seq.new (byte_val b)) (nth_error (pdu self) 1).

(** The [seq] argument of the constructor is an [int] or a [Seq];
    [int(seq)] reads either. *)
Inductive seq_arg : Type :=
| SeqInt (n : Z)
| SeqObj (s : Seq.t).

Definition int_of (a : seq_arg) : Z :=
  match a with
  | SeqInt n => n
  | SeqObj s => Seq.to_int s
  end.

(** [Packet(pdu)]: wrap raw bytes. *)
Definition Packet_of_pdu (raw : list byte) : Packet := mkPacket raw.

(** [self.pdu[2:4] = bytearray([hi, lo])] *)
Definition set_checksum_field (l : list byte) (hi lo : byte) : list byte :=
  firstn 2 l ++ [hi; lo] ++ skipn 4 l.

(** [Packet(type, seq, data)]: header with a cleared checksum field, the
    data, then the checksum put in place. *)
Definition Packet_new (type : Z) (seq : seq_arg) (data : list byte)
  : result Packet :=
  do t <- to_byte type;
  do s <- to_byte (int_of seq);
  let pdu0 := [t; s; x00; x00] ++ data in
  let checksum := ichecksum (mkPacket pdu0) 0 in
  do hi <- to_byte (Z.shiftr checksum 8);
  do lo <- to_byte (Z.land checksum 0xFF);
  Ok (mkPacket (set_checksum_field pdu0 hi lo)).

(** The byte that holds [n], for [n] in [range(256)] (and [n % 256]
    beyond it). *)
Definition byte_of (n : Z) : byte :=
  match Byte.of_N (Z.to_N (n mod 256)) with
  | Some b => b
  | None => x00
  end.

(** [pdu[i] = pdu[i] ^ mask] on a copy of the pdu, as [udt_send] does to
    emulate a bit error. *)
Fixpoint xor_at (pdu : list byte) (i : nat) (mask : Z) : list byte :=
  match pdu, i with
  | [], _ => []
  | b :: rest, O => byte_of (Z.lxor (byte_val b) mask) :: rest
  | b :: rest, S i' => b :: xor_at rest i' mask
  end.

(** ** Python dicts

    A [dict] keeps its keys in insertion order and holds each key once:
    an association list, with the three operations the code uses. *)

Section Dict.

Context {K V : Type} (eqb : K -> K -> bool).

(** [d[k]] ([None]: [KeyError]) and [k in d]. *)
Fixpoint dict_get (d : list (K * V)) (k : K) : option V :=
  match d with
  | [] => None
  | (k', v) :: rest => if eqb k' k then Some v else dict_get rest k
  end.

Definition dict_mem (d : list (K * V)) (k : K) : bool :=
  match dict_get d k with
  | Some _ => true
  | None => false
  end.

(** [d[k] = v]: in place when the key is there, at the end otherwise. *)
Fixpoint dict_set (d : list (K * V)) (k : K) (v : V) : list (K * V) :=
  match d with
  | [] => [(k, v)]
  | (k', v') :: rest =>
      if eqb k' k then (k', v) :: rest else (k', v') :: dict_set rest k v
  end.

(** [del d[k]], for a key that is there. *)
Fixpoint dict_del (d : list (K * V)) (k : K) : list (K * V) :=
  match d with
  | [] => []
  | (k', v') :: rest =>
      if eqb k' k then rest else (k', v') :: dict_del rest k
  end.

End Dict.

(** ** packet.py: class PacketBuffer *)

(** The values an index expression may hold; only [Seq] objects are
    accepted by [_check_key]. *)
Inductive pyobj : Type :=
| PySeq (s : Seq.t)
| PyInt (n : Z)
| PyBytes (b : list byte)
| PyNone.

Module PacketBuffer.

(** [buf] maps every [i] in [range(Seq.MOD)] to a packet or to [None]
    (an empty cell). *)
Record t : Type := mk {
  buf : list (Z * option Packet);
  base : Seq.t;
  bufsize : Z
}.

(** [__init__(self, bufsize)] *)
Definition new (bufsize : Z) : t :=
  {| buf := map (fun i => (Z.of_nat i, None))
                (List.seq 0 (Z.to_nat Seq.MOD));
     base := Seq.new 0;
     bufsize := bufsize |}.

(** [_check_key] *)
Definition check_key (seq : pyobj) : result Seq.t :=
  match seq with
  | PySeq s => Ok s
  | _ => Raise TypeError
  end.

(** [__getitem__]: [self.buf[seq.seq]] *)
Definition getitem (self : t) (seq : pyobj) : result (option Packet) :=
  do s <- check_key seq;
  match dict_get Z.eqb (buf self) (Seq.seq s) with
  | Some cell => Ok cell
  | None => Raise KeyError
  end.

(** [__setitem__]: [self.buf[seq.seq] = item] *)
Definition setitem (self : t) (seq : pyobj) (item : Packet) : result t :=
  do s <- check_key seq;
  Ok {| buf := dict_set Z.eqb (buf self) (Seq.seq s) (Some item);
        base := base self;
        bufsize := bufsize self |}.

(** [__delitem__]: [self.buf[seq.seq] = None] *)
Definition delitem (self : t) (seq : pyobj) : result t :=
  do s <- check_key seq;
  Ok {| buf := dict_set Z.eqb (buf self) (Seq.seq s) None;
        base := base self;
        bufsize := bufsize self |}.

(** [for (n, p) in items: self[Seq(n)] = p] *)
Fixpoint fill (self : t) (items : list (Z * Packet)) : result t :=
  match items with
  | [] => Ok self
  | (n, p) :: rest =>
      do self' <- setitem self (PySeq (Seq.new n)) p;
      fill self' rest
  end.

End PacketBuffer.

(** ** gbn.py: events, simulation parameters, timeout intervals *)

Inductive Ev : Type :=
| Packet_Arrival
| App_Request
| TO_Retransmit
| TO_Closing
| TO_DelayedACK.

(** The values of the [IntEnum]. *)
Definition Ev_value (e : Ev) : Z :=
  match e with
  | Packet_Arrival => 1
  | App_Request => 16
  | TO_Retransmit => 32
  | TO_Closing => 33
  | TO_DelayedACK => 34
  end.

Definition Ev_eqb (a b : Ev) : bool := Ev_value a =? Ev_value b.

Definition PER : Q := (1 # 10)%Q.
Definition LOSSRATE : Q := (1 # 10)%Q.
Definition EXTRA_MEAN_DELAY : Q := 0%Q.

Definition TO_interval : list (Ev * Q) :=
  [ (TO_Retransmit, ((3 # 10) + 5 * EXTRA_MEAN_DELAY)%Q);
    (TO_Closing, 1%Q);
    (TO_DelayedACK, (1 # 2)%Q) ].

(** ** gbn.py: class Timer *)

Module Timer.

(** [times]: the pending timeouts, each with the time it expires at;
    [intv]: the interval of each kind of timeout. *)
Record t : Type := mk {
  times : list (Ev * Q);
  intv : list (Ev * Q)
}.

Definition new (intv : list (Ev * Q)) : t := mk [] intv.

(** [self.times[key] = time.time() + self.intv[key]].  The sum is taken
    exactly; the code rounds it to a float, so what is relied on below is
    which kinds are pending, not the value stored. *)
Definition start_timer (self : t) (key : Ev) (now : Q) : result t :=
  match dict_get Ev_eqb (intv self) key with
  | Some d => Ok (mk (dict_set Ev_eqb (times self) key (now + d)%Q)
                     (intv self))
  | None => Raise KeyError
  end.

Definition stop_timer (self : t) (key : Ev) : t :=
  if dict_mem Ev_eqb (times self) key
  then mk (dict_del Ev_eqb (times self) key) (intv self)
  else self.

(** [sorted(items, key=lambda x: x[1])]: a stable sort, items of equal
    expiry stay in the order of the dict. *)
Fixpoint insert_by_expiry (x : Ev * Q) (l : list (Ev * Q))
  : list (Ev * Q) :=
  match l with
  | [] => [x]
  | y :: rest =>
      if Qle_bool (snd x) (snd y) then x :: l
      else y :: insert_by_expiry x rest
  end.

Definition sorted_by_expiry (items : list (Ev * Q)) : list (Ev * Q) :=
  fold_right insert_by_expiry [] items.

(** [check_timeout]: the first item of the sorted list with [t <= now]
    is deleted and its key returned; [None] when the loop ends. *)
Definition check_timeout (self : t) (now : Q) : option Ev * t :=
  let sorted_items := sorted_by_expiry (times self) in
  match find (fun kt => Qle_bool (snd kt) now) sorted_items with
  | Some (key, _) =>
      (Some key, mk (dict_del Ev_eqb (times self) key) (intv self))
  | None => (None, self)
  end.

Definition set_intv (self : t) (key : Ev) (d : Q) : result t :=
  if dict_mem Ev_eqb (intv self) key
  then Ok (mk (times self) (dict_set Ev_eqb (intv self) key d))
  else Raise KeyError.

Definition get_intv (self : t) (key : Ev) : result Q :=
  match dict_get Ev_eqb (intv self) key with
  | Some d => Ok d
  | None => Raise KeyError
  end.

End Timer.

(** ** gbn.py: ports, states, statistics *)

Definition sender_port : Z := 9977.
Definition receiver_port : Z := 9988.

Inductive State : Type := Wait | Closing | Closed.

Module Statistics.

Record t : Type := mk {
  sent : Z;
  dropping : Z;
  corrupting : Z;
  rcvd : Z;
  corrupt : Z;
  elapsed : option Q
}.

Definition new : t := mk 0 0 0 0 0 None.

End Statistics.

(** ** gbn.py: class GBN

    The thread's view of the world: the connected UDP socket (the port it
    is bound to, its peer, and the datagrams handed to [send], oldest
    first), the two queues of capacity one shared with the application,
    the statistics and the timer.  [new] is the object [__init__] leaves
    when creating, binding and connecting the socket went through; the
    calls that can fail are in [GBN_init] below. *)

Module GBN.

Definition address : Type := String.string * Z.

Record socket : Type := mkSocket {
  bound : Z;
  peer : address;
  sent_dgrams : list (list byte)
}.

Record t : Type := mk {
  sock : socket;
  down_queue : option (list byte);
  up_queue : option (list byte);
  stats : Statistics.t;
  timer : Timer.t
}.

(** [GBN.__init__(self, peer)] *)
Definition new (peer : address) : t :=
  {| sock := mkSocket (if snd peer =? sender_port then receiver_port
                       else sender_port) peer [];
     down_queue := None;
     up_queue := None;
     stats := Statistics.new;
     timer := Timer.new TO_interval |}.

Definition set_stats (self : t) (st : Statistics.t) : t :=
  mk (sock self) (down_queue self) (up_queue self) st (timer self).

Definition set_timer (self : t) (tm : Timer.t) : t :=
  mk (sock self) (down_queue self) (up_queue self) (stats self) tm.

Definition set_down_queue (self : t) (q : option (list byte)) : t :=
  mk (sock self) q (up_queue self) (stats self) (timer self).

(** [self.sock.send(dgram)] *)
Definition sock_send (self : t) (dgram : list byte) : t :=
  mk (mkSocket (bound (sock self)) (peer (sock self))
               (sent_dgrams (sock self) ++ [dgram]))
     (down_queue self) (up_queue self) (stats self) (timer self).

(** What [random] returns during one [udt_send]: the two
    [random.random()] and the [random.randrange(len(pdu))]. *)
Record draws : Type := mkDraws {
  loss_draw : Q;
  error_draw : Q;
  index_draw : nat
}.

Definition Qlt_bool (a b : Q) : bool := negb (Qle_bool b a).

(** [udt_send], for a packet built by [Packet(type, seq, data)]: a
    [bytearray] pdu of four bytes or more, which the corrupting branch
    can write to and the log lines can print.  The [time.sleep] of the
    extra delay changes nothing here. *)
Definition udt_send (self : t) (packet : Packet) (rnd : draws) : t :=
  let st := stats self in
  let self :=
    set_stats self
      (Statistics.mk (Statistics.sent st + 1) (Statistics.dropping st)
         (Statistics.corrupting st) (Statistics.rcvd st)
         (Statistics.corrupt st) (Statistics.elapsed st)) in
  let st := stats self in
  if Qlt_bool 0 LOSSRATE && Qle_bool (loss_draw rnd) LOSSRATE then
    set_stats self
      (Statistics.mk (Statistics.sent st) (Statistics.dropping st + 1)
         (Statistics.corrupting st) (Statistics.rcvd st)
         (Statistics.corrupt st) (Statistics.elapsed st))
  else if Qlt_bool 0 PER && Qlt_bool (error_draw rnd) PER then
    let self := sock_send self (xor_at (pdu packet) (index_draw rnd) 1) in
    set_stats self
      (Statistics.mk (Statistics.sent st) (Statistics.dropping st)
         (Statistics.corrupting st + 1) (Statistics.rcvd st)
         (Statistics.corrupt st) (Statistics.elapsed st))
  else sock_send self (pdu packet).

(** [rdt_rcv], on the datagram [self.sock.recv(2048)] takes. *)
Definition rdt_rcv (self : t) (dgram : list byte) : t * Packet :=
  let packet := Packet_of_pdu (firstn 2048 dgram) in
  let st := stats self in
  let self :=
    set_stats self
      (Statistics.mk (Statistics.sent st) (Statistics.dropping st)
         (Statistics.corrupting st) (Statistics.rcvd st + 1)
         (Statistics.corrupt st) (Statistics.elapsed st)) in
  let st := stats self in
  if corrupt packet then
    (set_stats self
       (Statistics.mk (Statistics.sent st) (Statistics.dropping st)
          (Statistics.corrupting st) (Statistics.rcvd st)
          (Statistics.corrupt st + 1) (Statistics.elapsed st)),
     packet)
  else (self, packet).

(** What one pass of the event loop observes: the result of
    [select.select] on the socket and the clock. *)
Record poll : Type := mkPoll {
  exceptional : bool;
  readable : bool;
  now : Q
}.

(** [check_event(self, down_queue=None)]; [with_queue] says whether a
    queue was passed. *)
Definition check_event (self : t) (env : poll) (with_queue : bool)
  : result (option Ev * t) :=
  if exceptional env then Raise OSError
  else if readable env then Ok (Some Packet_Arrival, self)
  else
    let (event, tm) := Timer.check_timeout (timer self) (now env) in
    let self := set_timer self tm in
    match event with
    | Some e => Ok (Some e, self)
    | None =>
        if negb with_queue then Ok (None, self)
        else match down_queue self with
             | None => Ok (None, self)
             | Some _ => Ok (Some App_Request, self)
             end
    end.

End GBN.

(** ** gbn.py: class GBNsend *)

Module GBNsend.

Record t : Type := mk {
  gbn : GBN.t;
  N : Z;
  sndbuf : PacketBuffer.t;
  state : State;
  base : Seq.t;
  next_seq : Seq.t
}.

(** [GBNsend.__init__(self, peer, N)] *)
Definition new (peer : GBN.address) (N : Z) : t :=
  {| gbn := GBN.new peer;
     N := N;
     sndbuf := PacketBuffer.new N;
     state := Wait;
     base := Seq.new 0;
     next_seq := Seq.new 0 |}.

Definition set_gbn (self : t) (g : GBN.t) : t :=
  mk g (N self) (sndbuf self) (state self) (base self) (next_seq self).

Definition set_state (self : t) (st : State) : t :=
  mk (gbn self) (N self) (sndbuf self) st (base self) (next_seq self).

(** [retransmit], [send_packet] and [handle_ACK]: the body of each is
    [pass]. *)
Definition retransmit (self : t) : t := self.

Definition send_packet (self : t) (type : Z) (data : list byte) : t := self.

Definition handle_ACK (self : t) (packet : Packet) : t := self.

(** One pass of the [while True] loop of [get_event]: the event it
    returns, or [None] when it goes to sleep and tries again. *)
Definition get_event_once (self : t) (env : GBN.poll)
  : result (option Ev * t) :=
  do r <- GBN.check_event (gbn self) env true;
  let (event, g) := r in
  let self := set_gbn self g in
  match event with
  | Some App_Request =>
      if negb (Seq.lt (next_seq self) (Seq.add (base self) (N self)))
      then Ok (None, self)
      else Ok (Some App_Request, self)
  | _ => Ok (event, self)
  end.

(** [get_event] over the observations of its successive passes; [None]
    while it has not returned. *)
Fixpoint get_event (self : t) (polls : list GBN.poll)
  : result (option Ev * t) :=
  match polls with
  | [] => Ok (None, self)
  | env :: rest =>
      do r <- get_event_once self env;
      match r with
      | (Some event, self') => Ok (Some event, self')
      | (None, self') => get_event self' rest
      end
  end.

(** The body of the [while] loop of [fsm] after [get_event] returned
    [event]; [dgram] is what the socket delivers if it is read.
    [self.error] is not defined, so the unknown-event branch raises
    [AttributeError].  [down_queue.get()] on an empty queue would block;
    [App_Request] is only reported for a queue that holds a chunk. *)
Definition fsm_body (self : t) (event : Ev) (dgram : list byte)
  : result t :=
  do r <- match event with
          | Packet_Arrival =>
              let (g, rcvpkt) := GBN.rdt_rcv (gbn self) dgram in
              Ok (set_gbn self g, Some rcvpkt)
          | TO_Retransmit => Ok (self, None)
          | App_Request =>
              Ok (set_gbn self (GBN.set_down_queue (gbn self) None), None)
          | _ => Raise AttributeError
          end;
  let (self, rcvpkt) := r in
  match state self with
  | Wait => Ok self
  | Closing =>
      match event, rcvpkt with
      | TO_Retransmit, _ => Ok (retransmit self)
      | Packet_Arrival, Some pkt =>
          if negb (corrupt pkt) then
            match packet_type pkt with
            | None => Raise IndexError
            | Some ty =>
                if negb (Z.land ty (PType.value PType.ACK) =? 0) then
                  let self := handle_ACK self pkt in
                  if Seq.eq (base self) (next_seq self)
                  then Ok (set_state self Closed)
                  else Ok self
                else Ok self
            end
          else Ok self
      | _, _ => Ok self
      end
  | Closed => Ok self
  end.

(** One pass of [get_event]'s loop and, when it returns an event, the
    rest of the pass of [fsm]'s loop. *)
Definition fsm_step (self : t) (env : GBN.poll) (dgram : list byte)
  : result t :=
  do r <- get_event_once self env;
  match r with
  | (Some event, self') => fsm_body self' event dgram
  | (None, self') => Ok self'
  end.

(** What can happen to a sender: the application puts a chunk in the
    empty down queue ([send], [close]), or the thread, not yet
    [Closed], makes one pass. *)
Inductive step : t -> t -> Prop :=
| step_app (s : t) (data : list byte) :
    GBN.down_queue (gbn s) = None ->
    step s (set_gbn s (GBN.set_down_queue (gbn s) (Some data)))
| step_fsm (s s' : t) (env : GBN.poll) (dgram : list byte) :
    state s <> Closed ->
    fsm_step s env dgram = Ok s' ->
    step s s'.

Inductive reachable (s0 : t) : t -> Prop :=
| reach_init : reachable s0 s0
| reach_step (s s' : t) : reachable s0 s -> step s s' -> reachable s0 s'.

End GBNsend.

(** ** gbn.py: class GBNrecv (construction) *)

Module GBNrecv.

Record t : Type := mk {
  gbn : GBN.t;
  N : Z;
  rcvbuf : PacketBuffer.t;
  state : State;
  base : Seq.t;
  FIN_delivered : bool
}.

(** [GBNrecv.__init__(self, peer, N)] *)
Definition new (peer : GBN.address) (N : Z) : t :=
  {| gbn := GBN.new peer;
     N := N;
     rcvbuf := PacketBuffer.new N;
     state := Wait;
     base := Seq.new 0;
     FIN_delivered := false |}.

End GBNrecv.

(** ** gbn.py: open

    [GBN.__init__] creates a UDP socket, binds it to the fixed port of
    its role and connects it to the peer before anything else; each of
    the three calls can fail, and the [OSError] (a port in use, a host
    name that does not resolve) leaves the constructor and [open].
    [os_env] is what the operating system answers to the three calls;
    [GBN.new] is the object a constructor that went through leaves. *)







(** ** packet.py: Packet.__getattr__

    The method itself, which Python calls for a name that the object and
    its class do not define: the four fields read off the pdu by name.
    [pdu[0]] and [pdu[1]] raise [IndexError] on a pdu that is too short,
    the two slices never do.  ([pdu], [corrupt], [extract] and the like
    are found before the method is asked.) *)

Inductive attr : Type :=
| AType (flags : Z)
| ASeq (s : Seq.t)
| ABytes (b : list byte).

Definition getattr (self : Packet) (item : String.string) : result attr :=
  if String.eqb item "type"%string then
    match nth_error (pdu self) 0 with
    | Some b => Ok (AType (byte_val b))
    | None => Raise IndexError
    end
  else if String.eqb item "seq"%string then
    match nth_error (pdu self) 1 with
    | Some b => Ok (ASeq (Seq.new (byte_val b)))
    | None => Raise IndexError
    end
  else if String.eqb item "checksum"%string then
    Ok (ABytes (firstn 1 (skipn 2 (pdu self))))
  else if String.eqb item "data"%string then
    Ok (ABytes (skipn 4 (pdu self)))
  else Raise AttributeError.

(** ** gbn.py: class GBNrecv (event loop)

    [feedback_ACK] and [handle_packet] have the body [pass], and so has
    the [Wait] branch of [fsm]. *)

Module GBNrecvFsm.

Definition set_gbn (self : GBNrecv.t) (g : GBN.t) : GBNrecv.t :=
  GBNrecv.mk g (GBNrecv.N self) (GBNrecv.rcvbuf self) (GBNrecv.state self)
    (GBNrecv.base self) (GBNrecv.FIN_delivered self).

Definition set_state (self : GBNrecv.t) (st : State) : GBNrecv.t :=
  GBNrecv.mk (GBNrecv.gbn self) (GBNrecv.N self) (GBNrecv.rcvbuf self) st
    (GBNrecv.base self) (GBNrecv.FIN_delivered self).

Definition feedback_ACK (self : GBNrecv.t) : GBNrecv.t := self.

Definition handle_packet (self : GBNrecv.t) (rcvpkt : Packet) : GBNrecv.t :=
  self.

(** One pass of the loop of [get_event]: [self.check_event()], without a
    queue. *)
Definition get_event_once (self : GBNrecv.t) (env : GBN.poll)
  : result (option Ev * GBNrecv.t) :=
  do r <- GBN.check_event (GBNrecv.gbn self) env false;
  let (event, g) := r in
  Ok (event, set_gbn self g).

(** The body of the [while] loop of [fsm] after [get_event] returned
    [event], with the local [start_time]; an event that is neither a
    packet arrival nor a timeout is logged and skipped. *)
Definition fsm_body (self : GBNrecv.t) (start_time : option Q) (event : Ev)
  (clock : Q) (dgram : list byte) : GBNrecv.t * option Q :=
  let handled :=
    match event with
    | Packet_Arrival =>
        Some (set_gbn self (fst (GBN.rdt_rcv (GBNrecv.gbn self) dgram)))
    | _ =>
        if Ev_value event >=? Ev_value TO_Retransmit then Some self else None
    end in
  match handled with
  | None => (self, start_time)
  | Some self =>
      let start_time :=
        match start_time with
        | None => Some clock
        | Some t => Some t
        end in
      match GBNrecv.state self with
      | Wait => (self, start_time)
      | Closing =>
          match event with
          | TO_Closing => (set_state self Closed, start_time)
          | Packet_Arrival => (feedback_ACK self, start_time)
          | _ => (self, start_time)
          end
      | Closed => (self, start_time)
      end
  end.

(** One pass of [get_event]'s loop and, on an event, the rest of the pass
    of [fsm]'s loop. *)
Definition fsm_step (self : GBNrecv.t) (start_time : option Q)
  (env : GBN.poll) (dgram : list byte) : result (GBNrecv.t * option Q) :=
  do r <- get_event_once self env;
  match r with
  | (Some event, self') =>
      Ok (fsm_body self' start_time event (GBN.now env) dgram)
  | (None, self') => Ok (self', start_time)
  end.

(** The receiver and its [start_time]: the application takes a chunk off
    the up queue ([recv]), or the thread, not yet [Closed], makes one
    pass. *)
Inductive step : GBNrecv.t * option Q -> GBNrecv.t * option Q -> Prop :=
| step_recv (s : GBNrecv.t) (st : option Q) (data : list byte) :
    GBN.up_queue (GBNrecv.gbn s) = Some data ->
    step (s, st)
      (set_gbn s
         (GBN.mk (GBN.sock (GBNrecv.gbn s)) (GBN.down_queue (GBNrecv.gbn s))
            None (GBN.stats (GBNrecv.gbn s)) (GBN.timer (GBNrecv.gbn s))),
       st)
| step_fsm (s s' : GBNrecv.t) (st st' : option Q) (env : GBN.poll)
    (dgram : list byte) :
    GBNrecv.state s <> Closed ->
    fsm_step s st env dgram = Ok (s', st') ->
    step (s, st) (s', st').

Inductive reachable (s0 : GBNrecv.t) : GBNrecv.t * option Q -> Prop :=
| reach_init : reachable s0 (s0, None)
| reach_step (c c' : GBNrecv.t * option Q) :
    reachable s0 c -> step c c' -> reachable s0 c'.

End GBNrecvFsm.

(** ** Vocabulary of the properties

    The forward distance from [a] to [b] is the number of [+ 1] steps that
    lead from [a] to [b]; the circular distance is the shorter way round. *)

Definition forward_distance (a b : Seq.t) : Z :=
  (Seq.seq b - Seq.seq a) mod Seq.MOD.

Definition circular_distance (a b : Seq.t) : Z :=
  Z.min (forward_distance a b) (forward_distance b a).

(** The pdu with bit [j] of byte [i] flipped. *)
Definition flip_bit (pdu : list byte) (i : nat) (j : Z) : list byte :=
  xor_at pdu i (Z.shiftl 1 j).

(** The window of a sender is within bounds: [base] and [next_seq] are
    sequence numbers, the window size is one that [open] accepts, and
    [next_seq] is at most [N] steps ahead of [base]. *)
Definition window_ok (s : GBNsend.t) : Prop :=
  Seq.wf (GBNsend.base s) /\ Seq.wf (GBNsend.next_seq s)
  /\ 0 <= GBNsend.N s < Seq.MOD
  /\ forward_distance (GBNsend.base s) (GBNsend.next_seq s) <= GBNsend.N s.

(** Two sender states with the same window: size, bounds and buffer. *)
Definition same_window (s s' : GBNsend.t) : Prop :=
  GBNsend.N s' = GBNsend.N s /\ GBNsend.base s' = GBNsend.base s
  /\ GBNsend.next_seq s' = GBNsend.next_seq s
  /\ GBNsend.sndbuf s' = GBNsend.sndbuf s.

(** The Internet checksum as the specification words it: the 16-bit
    big-endian words of the bytes, a trailing odd byte padded with a zero
    byte to form the last word; their sum with the carries above bit 15
    folded back into the low 16 bits (for a sum that is not zero, the
    value from 1 to [0xFFFF] with the same residue modulo [0xFFFF]); the
    one's complement of that. *)
Fixpoint be_words (l : list byte) : list Z :=
  match l with
  | [] => []
  | [b] => [byte_val b * 256 + byte_val x00]
  | b0 :: b1 :: rest => (byte_val b0 * 256 + byte_val b1) :: be_words rest
  end.

Definition end_around_carry (total : Z) : Z :=
  if total =? 0 then 0 else (total - 1) mod 65535 + 1.

Definition internet_checksum (l : list byte) : Z :=
  65535 - end_around_carry (fold_right Z.add 0 (be_words l)).



(** A sender in [Closing]: its [FIN] frame, sequence number 0, is in the
    send buffer and not acknowledged, nothing has been sent again yet and
    no timer is pending. *)
Definition fin0 : Packet := mkPacket [x04; x00; xfb; xff].


(** A timer with the closing timeout due at 1 s and, started after it,
    the retransmission timeout due at 0.3 s. *)
Definition two_timers : Timer.t :=
  Timer.mk [(TO_Closing, 1%Q); (TO_Retransmit, (3 # 10)%Q)] TO_interval.

(** A run of writes and deletes on a packet buffer, each at the cell of
    [Seq(n)], and the cell a key is left with: the last write or delete
    at it, if any. *)
Inductive buf_op : Type :=
| OpSet (n : Z) (p : Packet)
| OpDel (n : Z).

Fixpoint run_ops (b : PacketBuffer.t) (ops : list buf_op)
  : result PacketBuffer.t :=
  match ops with
  | [] => Ok b
  | OpSet n p :: rest =>
      do b' <- PacketBuffer.setitem b (PySeq (Seq.new n)) p;
      run_ops b' rest
  | OpDel n :: rest =>
      do b' <- PacketBuffer.delitem b (PySeq (Seq.new n));
      run_ops b' rest
  end.

Fixpoint last_write (ops : list buf_op) (k : Z) (cell : option Packet)
  : option Packet :=
  match ops with
  | [] => cell
  | OpSet n p :: rest =>
      last_write rest k (if n mod 256 =? k mod 256 then Some p else cell)
  | OpDel n :: rest =>
      last_write rest k (if n mod 256 =? k mod 256 then None else cell)
  end.

(** A run of [udt_send] calls, each with its packet and its draws. *)
Definition udt_send_all (g : GBN.t) (calls : list (Packet * GBN.draws))
  : GBN.t :=
  fold_left (fun g c => GBN.udt_send g (fst c) (snd c)) calls g.

(** The three ways a [udt_send] can go, by its draws. *)
Definition dropped (rnd : GBN.draws) : bool :=
  GBN.Qlt_bool 0 LOSSRATE && Qle_bool (GBN.loss_draw rnd) LOSSRATE.

Definition garbled (rnd : GBN.draws) : bool :=
  negb (dropped rnd)
  && (GBN.Qlt_bool 0 PER && GBN.Qlt_bool (GBN.error_draw rnd) PER).

(** A sender that has done nothing yet: in [Wait], with nothing handed
    to the socket or counted as sent, nothing delivered and no timer
    pending. *)
Definition sender_idle (s : GBNsend.t) : Prop :=
  GBNsend.state s = Wait
  /\ GBN.sent_dgrams (GBN.sock (GBNsend.gbn s)) = []
  /\ Statistics.sent (GBN.stats (GBNsend.gbn s)) = 0
  /\ GBN.up_queue (GBNsend.gbn s) = None
  /\ Timer.times (GBN.timer (GBNsend.gbn s)) = [].

(** A receiver that has done nothing but count arrivals: in [Wait], with
    nothing delivered, nothing sent, no timer pending, and a start time
    exactly when a datagram has been counted. *)
Definition receiver_idle (c : GBNrecv.t * option Q) : Prop :=
  GBNrecv.state (fst c) = Wait
  /\ GBNrecv.FIN_delivered (fst c) = false
  /\ GBN.up_queue (GBNrecv.gbn (fst c)) = None
  /\ GBN.sent_dgrams (GBN.sock (GBNrecv.gbn (fst c))) = []
  /\ Statistics.sent (GBN.stats (GBNrecv.gbn (fst c))) = 0
  /\ Timer.times (GBN.timer (GBNrecv.gbn (fst c))) = []
  /\ 0 <= Statistics.corrupt (GBN.stats (GBNrecv.gbn (fst c)))
     <= Statistics.rcvd (GBN.stats (GBNrecv.gbn (fst c)))
  /\ (snd c = None
      <-> Statistics.rcvd (GBN.stats (GBNrecv.gbn (fst c))) = 0).

(** A run of calls on a timer; a call that raises leaves the timer as it
    was. *)
Inductive timer_op : Type :=
| OpStart (key : Ev) (clock : Q)
| OpStop (key : Ev)
| OpCheck (clock : Q)
| OpSetIntv (key : Ev) (d : Q).

Definition run_timer_op (tm : Timer.t) (op : timer_op) : Timer.t :=
  match op with
  | OpStart key clock =>
      match Timer.start_timer tm key clock with
      | Ok tm' => tm'
      | Raise _ => tm
      end
  | OpStop key => Timer.stop_timer tm key
  | OpCheck clock => snd (Timer.check_timeout tm clock)
  | OpSetIntv key d =>
      match Timer.set_intv tm key d with
      | Ok tm' => tm'
      | Raise _ => tm
      end
  end.



(** Exactly one of three booleans is [true]. *)
Definition exactly_one (p q r : bool) : Prop :=
  (p = true /\ q = false /\ r = false)
  \/ (p = false /\ q = true /\ r = false)
  \/ (p = false /\ q = false /\ r = true).

(* ================================================================== *)
(** * Part II. Properties *)
(* ================================================================== *)

(** ** Sequence numbers *)

Section SeqFacts.

Lemma MOD_val : Seq.MOD = 256.
Proof. reflexivity. Qed.

Lemma HALF_val : Seq.HALF = 128.
Proof. reflexivity. Qed.

Lemma new_wf (n : Z) : Seq.wf (Seq.new n).
Proof.
  unfold Seq.wf, Seq.new; cbn [Seq.seq]. rewrite MOD_val.
  apply Z.mod_pos_bound; lia.
Qed.

Lemma add_wf (s : Seq.t) (n : Z) : Seq.wf (Seq.add s n).
Proof. apply new_wf. Qed.

Lemma new_seq_id (s : Seq.t) : Seq.wf s -> Seq.new (Seq.seq s) = s.
Proof.
  destruct s as [v]; unfold Seq.wf, Seq.new; cbn [Seq.seq]; intros H.
  rewrite Z.mod_small by assumption. reflexivity.
Qed.

Lemma eq_true_iff (a b : Seq.t) : Seq.eq a b = true <-> a = b.
Proof.
  destruct a as [x], b as [y]; unfold Seq.eq; cbn [Seq.seq].
  rewrite Z.eqb_eq. split; [intros ->; reflexivity | congruence].
Qed.

(** [__lt__] on constructed values, as a statement about the forward
    distance. *)
Lemma lt_forward (a b : Seq.t) :
  Seq.wf a -> Seq.wf b ->
  Seq.lt a b = true <-> 0 < (Seq.seq b - Seq.seq a) mod 256 < 128.
Proof.
  destruct a as [x], b as [y]; unfold Seq.wf, Seq.lt; cbn [Seq.seq].
  rewrite MOD_val, HALF_val. intros Hx Hy.
  rewrite orb_true_iff, !andb_true_iff, !Z.ltb_lt, !Z.gtb_ltb, !Z.ltb_lt.
  destruct (Z_lt_ge_dec y x) as [Hlt | Hge].
  - replace ((y - x) mod 256) with (y - x + 256)
      by (apply Z.mod_unique with (q := -1); lia).
    lia.
  - rewrite (Z.mod_small (y - x)) by lia. lia.
Qed.

Lemma forward_distance_new (x y : Z) :
  forward_distance (Seq.new x) (Seq.new y) = (y - x) mod 256.
Proof.
  unfold forward_distance, Seq.new; cbn [Seq.seq]. rewrite MOD_val.
  rewrite <- Zminus_mod. reflexivity.
Qed.

(** The two ways round add up to the modulus, unless both are zero. *)
Lemma forward_backward (a b : Seq.t) :
  Seq.wf a -> Seq.wf b ->
  (forward_distance a b = 0 /\ forward_distance b a = 0 /\ a = b)
  \/ (0 < forward_distance a b < 256
      /\ forward_distance b a = 256 - forward_distance a b /\ a <> b).
Proof.
  destruct a as [x], b as [y]; unfold Seq.wf, forward_distance; cbn [Seq.seq].
  rewrite MOD_val. intros Hx Hy.
  assert (Hne : x <> y -> {| Seq.seq := x |} <> {| Seq.seq := y |})
    by (intros N E; apply N; congruence).
  destruct (Z.lt_trichotomy x y) as [H | [H | H]].
  - right. rewrite (Z.mod_small (y - x)) by lia.
    replace ((x - y) mod 256) with (x - y + 256)
      by (apply Z.mod_unique with (q := -1); lia).
    split; [lia | split; [lia | apply Hne; lia]].
  - left. subst y. rewrite Z.sub_diag. auto.
  - right. rewrite (Z.mod_small (x - y)) by lia.
    replace ((y - x) mod 256) with (y - x + 256)
      by (apply Z.mod_unique with (q := -1); lia).
    split; [lia | split; [lia | apply Hne; lia]].
Qed.

Lemma add_add (s : Seq.t) (n m : Z) :
  Seq.add (Seq.add s n) m = Seq.add s (n + m).
Proof.
  unfold Seq.add, Seq.new; cbn [Seq.seq]. f_equal.
  rewrite Zplus_mod_idemp_l. f_equal. lia.
Qed.

Lemma add_0 (s : Seq.t) : Seq.wf s -> Seq.add s 0 = s.
Proof.
  intros H. unfold Seq.add. rewrite Z.add_0_r. apply new_seq_id, H.
Qed.

Lemma add_new (x n : Z) : Seq.add (Seq.new x) n = Seq.new (x + n).
Proof.
  unfold Seq.add, Seq.new; cbn [Seq.seq]. f_equal. apply Zplus_mod_idemp_l.
Qed.

Lemma forward_distance_add (s : Seq.t) (k : Z) :
  Seq.wf s -> forward_distance s (Seq.add s k) = k mod 256.
Proof.
  intros H. unfold forward_distance, Seq.add, Seq.new; cbn [Seq.seq].
  rewrite MOD_val. rewrite Zminus_mod_idemp_l. f_equal. lia.
Qed.

End SeqFacts.

(** C4. [Seq.__lt__] is the circular order: [a < b] holds exactly when the
    forward distance from [a] to [b] is smaller than the one from [b] to
    [a], which is when it is non-zero and below [HALF]; at equal distances
    (0 or 128) neither operand is below the other.  For two sequence
    numbers at circular distance below [HALF], exactly one of [a < b],
    [a == b], [b < a] holds.  [Seq(250) + 10 == Seq(4)] and
    [Seq(250) < Seq(4)]. *)
Theorem seq_lt_circular_order :
  (forall x y : Z,
      (Seq.lt (Seq.new x) (Seq.new y) = true
       <-> forward_distance (Seq.new x) (Seq.new y)
           < forward_distance (Seq.new y) (Seq.new x))
      /\ (Seq.lt (Seq.new x) (Seq.new y) = true
          <-> 0 < forward_distance (Seq.new x) (Seq.new y) < Seq.HALF)
      /\ (forward_distance (Seq.new x) (Seq.new y)
          = forward_distance (Seq.new y) (Seq.new x) ->
          Seq.lt (Seq.new x) (Seq.new y) = false
          /\ Seq.lt (Seq.new y) (Seq.new x) = false)
      /\ (circular_distance (Seq.new x) (Seq.new y) < Seq.HALF ->
          exactly_one (Seq.lt (Seq.new x) (Seq.new y))
                      (Seq.eq (Seq.new x) (Seq.new y))
                      (Seq.lt (Seq.new y) (Seq.new x))))
  /\ Seq.eq (Seq.add (Seq.new 250) 10) (Seq.new 4) = true
  /\ Seq.lt (Seq.new 250) (Seq.new 4) = true.
Proof.
  split; [| split; reflexivity].
  intros x y.
  pose proof (new_wf x) as Hx. pose proof (new_wf y) as Hy.
  pose proof (lt_forward _ _ Hx Hy) as Hxy.
  pose proof (lt_forward _ _ Hy Hx) as Hyx.
  pose proof (eq_true_iff (Seq.new x) (Seq.new y)) as Heq.
  unfold circular_distance. rewrite HALF_val.
  fold (forward_distance (Seq.new x) (Seq.new y)) in Hxy.
  change ((Seq.seq (Seq.new y) - Seq.seq (Seq.new x)) mod 256)
    with (forward_distance (Seq.new x) (Seq.new y)) in Hxy.
  change ((Seq.seq (Seq.new x) - Seq.seq (Seq.new y)) mod 256)
    with (forward_distance (Seq.new y) (Seq.new x)) in Hyx.
  assert (Q : Seq.eq (Seq.new x) (Seq.new y) = true
              <-> forward_distance (Seq.new x) (Seq.new y) = 0).
  { rewrite Heq.
    destruct (forward_backward _ _ Hx Hy) as [(F & _ & E) | (F & _ & E)];
      split; intros; try assumption; try contradiction; lia. }
  assert (B : forward_distance (Seq.new y) (Seq.new x)
              = (if forward_distance (Seq.new x) (Seq.new y) =? 0 then 0
                 else 256 - forward_distance (Seq.new x) (Seq.new y))
              /\ 0 <= forward_distance (Seq.new x) (Seq.new y) < 256).
  { destruct (forward_backward _ _ Hx Hy) as [(F & B & _) | (F & B & _)];
      rewrite B, ?F; split; try lia.
    - reflexivity.
    - destruct (Z.eqb_spec (forward_distance (Seq.new x) (Seq.new y)) 0); lia. }
  destruct B as [B R]. rewrite B in *. clear B Heq Hx Hy.
  generalize dependent (forward_distance (Seq.new x) (Seq.new y)).
  intros f.
  destruct (Z.eqb_spec f 0) as [Z0 | Z0]; intros;
    destruct (Seq.lt (Seq.new x) (Seq.new y));
    destruct (Seq.lt (Seq.new y) (Seq.new x));
    destruct (Seq.eq (Seq.new x) (Seq.new y));
    unfold exactly_one;
    intuition (try discriminate; try lia).
Qed.

(** ** srange *)

Section SrangeFacts.

Lemma ne_add_pos (s : Seq.t) (k : Z) :
  Seq.wf s -> 0 < k < 256 -> Seq.ne s (Seq.add s k) = true.
Proof.
  intros W K. unfold Seq.ne.
  destruct (Seq.eq s (Seq.add s k)) eqn:E; [| reflexivity].
  apply eq_true_iff in E.
  pose proof (forward_distance_add s k W) as D.
  rewrite <- E in D. unfold forward_distance in D.
  rewrite Z.sub_diag, Zmod_0_l, Z.mod_small in D by lia. lia.
Qed.

Lemma ne_refl (s : Seq.t) : Seq.ne s s = false.
Proof. unfold Seq.ne, Seq.eq. rewrite Z.eqb_refl. reflexivity. Qed.

(** What the loop yields when [end] lies [k] steps ahead, for any fuel
    that allows [k] yields and the final test. *)
Lemma srange_loop_run (k : nat) :
  forall (fuel : nat) (s : Seq.t),
    Seq.wf s -> (k < 256)%nat -> (k < fuel)%nat ->
    srange_loop fuel s (Seq.add s (Z.of_nat k))
    = Some (map (fun i => Seq.add s (Z.of_nat i)) (List.seq 0 k)).
Proof.
  induction k as [| k IH]; intros fuel s W K F;
    (destruct fuel as [| fuel]; [lia |]); cbn [srange_loop].
  - rewrite add_0 by assumption. rewrite ne_refl. reflexivity.
  - rewrite ne_add_pos by (assumption || lia).
    replace (Seq.add s (Z.of_nat (S k)))
      with (Seq.add (Seq.add s 1) (Z.of_nat k))
      by (rewrite add_add; f_equal; lia).
    rewrite IH by (try apply add_wf; lia).
    cbn [option_map List.seq map]. rewrite add_0 by assumption.
    do 2 f_equal. rewrite <- seq_shift, map_map.
    apply map_ext. intros i. rewrite add_add. f_equal. lia.
Qed.

(** More fuel than needed changes nothing. *)
Lemma srange_loop_fuel (fuel : nat) :
  forall (s e : Seq.t) (l : list Seq.t),
    srange_loop fuel s e = Some l ->
    forall fuel', (fuel <= fuel')%nat -> srange_loop fuel' s e = Some l.
Proof.
  induction fuel as [| fuel IH]; intros s e l H fuel' F; [discriminate |].
  destruct fuel' as [| fuel']; [lia |]. cbn [srange_loop] in *.
  destruct (Seq.ne s e); [| assumption].
  destruct (srange_loop fuel (Seq.add s 1) e) as [l' |] eqn:E;
    [| discriminate].
  rewrite (IH _ _ _ E fuel') by lia. assumption.
Qed.

Lemma add_forward_distance (a b : Seq.t) :
  Seq.wf a -> Seq.wf b -> Seq.add a (forward_distance a b) = b.
Proof.
  destruct a as [x], b as [y]; unfold Seq.wf, forward_distance, Seq.add, Seq.new.
  cbn [Seq.seq]. rewrite MOD_val. intros Hx Hy. f_equal.
  rewrite Zplus_mod_idemp_r. replace (x + (y - x)) with y by lia.
  apply Z.mod_small; assumption.
Qed.

End SrangeFacts.

(** C8. [srange(s, s)] yields nothing; for [0 <= k < 256], [srange(s, s + k)]
    yields exactly the [k] values [s, s + 1, ..., s + k - 1] (each reduced
    modulo 256), in that order, and so stops before [s + k]; the same list
    comes out for every fuel above [k].  Between any two sequence numbers
    the generator is finite: it stops after as many values as the forward
    distance from [start] to [end], fewer than 256. *)
Theorem srange_generates (x : Z) :
  srange (Seq.new x) (Seq.new x) = Some []
  /\ (forall k : Z,
        0 <= k < Seq.MOD ->
        srange (Seq.new x) (Seq.add (Seq.new x) k)
        = Some (map (fun i => Seq.new (x + Z.of_nat i))
                    (List.seq 0 (Z.to_nat k)))
        /\ (forall fuel : nat,
              (Z.to_nat k < fuel)%nat ->
              srange_loop fuel (Seq.new x) (Seq.add (Seq.new x) k)
              = srange (Seq.new x) (Seq.add (Seq.new x) k))
        /\ (forall l,
              srange (Seq.new x) (Seq.add (Seq.new x) k) = Some l ->
              Z.of_nat (length l) = k /\ ~ In (Seq.add (Seq.new x) k) l))
  /\ (forall y : Z,
        exists l : list Seq.t,
          srange (Seq.new x) (Seq.new y) = Some l
          /\ Z.of_nat (length l) = forward_distance (Seq.new x) (Seq.new y)
          /\ (length l < 256)%nat).
Proof.
  pose proof (new_wf x) as W.
  assert (R : forall k : Z,
             0 <= k < 256 ->
             forall fuel, (Z.to_nat k < fuel)%nat ->
               srange_loop fuel (Seq.new x) (Seq.add (Seq.new x) k)
               = Some (map (fun i => Seq.new (x + Z.of_nat i))
                           (List.seq 0 (Z.to_nat k)))).
  { intros k K fuel F.
    replace k with (Z.of_nat (Z.to_nat k)) at 1 by lia.
    rewrite srange_loop_run by (assumption || lia).
    f_equal. apply map_ext. intros i. apply add_new. }
  assert (U : forall k, srange (Seq.new x) (Seq.add (Seq.new x) k)
                        = srange_loop 257 (Seq.new x) (Seq.add (Seq.new x) k)).
  { intros k. unfold srange. rewrite new_seq_id by assumption. reflexivity. }
  split; [| split].
  - specialize (R 0 ltac:(lia) 257%nat ltac:(lia)).
    rewrite add_0 in R by assumption.
    unfold srange. rewrite new_seq_id by assumption. exact R.
  - rewrite MOD_val. intros k K. rewrite U.
    rewrite (R k K 257%nat) by lia.
    split; [reflexivity | split].
    + intros fuel F. apply R; assumption.
    + intros l E. injection E as <-. rewrite length_map, length_seq.
      split; [lia |].
      rewrite in_map_iff. intros (i & E & I). apply in_seq in I.
      rewrite add_new in E. unfold Seq.new in E. injection E as E.
      rewrite MOD_val in E.
      assert (D : (x + k - (x + Z.of_nat i)) mod 256 = 0)
        by (rewrite Zminus_mod, E, Z.sub_diag; reflexivity).
      replace (x + k - (x + Z.of_nat i)) with (k - Z.of_nat i) in D by lia.
      rewrite Z.mod_small in D by lia. lia.
  - intros y. pose proof (new_wf y) as Wy.
    pose proof (Z.mod_pos_bound (Seq.seq (Seq.new y) - Seq.seq (Seq.new x)) 256
                  ltac:(lia)) as B.
    fold (forward_distance (Seq.new x) (Seq.new y)) in B.
    change ((Seq.seq (Seq.new y) - Seq.seq (Seq.new x)) mod 256)
      with (forward_distance (Seq.new x) (Seq.new y)) in B.
    pose proof (U (forward_distance (Seq.new x) (Seq.new y))) as E.
    rewrite (R _ B 257%nat) in E by lia.
    rewrite (add_forward_distance (Seq.new x) (Seq.new y) W Wy) in E.
    eexists; split; [exact E |].
    rewrite length_map, length_seq. lia.
Qed.

(** ** The checksum *)

Section ChecksumFacts.

Lemma byte_val_range (b : byte) : 0 <= byte_val b < 256.
Proof.
  unfold byte_val. pose proof (Byte.to_N_bounded b). lia.
Qed.

Lemma to_byte_ok (n : Z) :
  0 <= n < 256 -> exists b, to_byte n = Ok b /\ byte_val b = n.
Proof.
  intros H. unfold to_byte.
  replace ((0 <=? n) && (n <? 256)) with true
    by (symmetry; apply andb_true_iff; split;
        [apply Z.leb_le | apply Z.ltb_lt]; lia).
  destruct (Byte.of_N (Z.to_N n)) as [b |] eqn:E.
  - exists b. split; [reflexivity |]. unfold byte_val.
    apply Byte.to_of_N in E. rewrite E. lia.
  - apply Byte.of_N_None_iff in E. lia.
Qed.

Lemma to_byte_val (b : byte) : to_byte (byte_val b) = Ok b.
Proof.
  destruct (to_byte_ok (byte_val b) (byte_val_range b)) as (b' & E & V).
  rewrite E. f_equal. unfold byte_val in V.
  apply N2Z.inj in V.
  pose proof (Byte.of_to_N b) as A. pose proof (Byte.of_to_N b') as A'.
  rewrite V in A'. congruence.
Qed.

Lemma shiftr16 (s : Z) : Z.shiftr s 16 = s / 65536.
Proof. rewrite Z.shiftr_div_pow2 by lia. reflexivity. Qed.

Lemma land16 (s : Z) : Z.land s 0xFFFF = s mod 65536.
Proof. change 0xFFFF with (Z.ones 16). rewrite Z.land_ones by lia. reflexivity. Qed.

Lemma shiftl8 (b : Z) : Z.shiftl b 8 = b * 256.
Proof. rewrite Z.shiftl_mul_pow2 by lia. reflexivity. Qed.

(** Pairs of bytes: the induction that follows [sum_words]. *)
Lemma pairs_ind (P : list byte -> Prop) :
  P [] ->
  (forall b, P [b]) ->
  (forall b0 b1 rest, P rest -> P (b0 :: b1 :: rest)) ->
  forall l, P l.
Proof.
  intros H0 H1 H2 l.
  assert (H : P l /\ forall b, P (b :: l)).
  { induction l as [| a l [IH1 IH2]]; split; auto. }
  apply H.
Qed.

Lemma sum_words_acc (l : list byte) :
  forall a, sum_words l a = a + sum_words l 0.
Proof.
  induction l as [| b | b0 b1 rest IH] using pairs_ind; intros a;
    cbn [sum_words]; try lia.
  rewrite IH, (IH (0 + _)). lia.
Qed.

Lemma sum_words_nonneg (l : list byte) : 0 <= sum_words l 0.
Proof.
  induction l as [| b | b0 b1 rest IH] using pairs_ind; cbn [sum_words].
  - lia.
  - pose proof (byte_val_range b). lia.
  - rewrite sum_words_acc, shiftl8.
    pose proof (byte_val_range b0). pose proof (byte_val_range b1). lia.
Qed.

(** One pass of the loop body keeps the residue modulo [0xFFFF]. *)
Lemma fold_step (s : Z) :
  65536 <= s ->
  let s' := Z.land s 0xFFFF + Z.shiftr s 16 in
  0 < s' <= s - 65535 /\ s' mod 65535 = s mod 65535.
Proof.
  intros H. cbv zeta. rewrite land16, shiftr16.
  pose proof (Z.div_mod s 65536 ltac:(lia)) as D.
  pose proof (Z.mod_pos_bound s 65536 ltac:(lia)) as B.
  assert (1 <= s / 65536) by (apply Z.div_le_lower_bound; lia).
  split; [lia |].
  rewrite D at 3.
  replace (65536 * (s / 65536) + s mod 65536)
    with (s mod 65536 + s / 65536 + (s / 65536) * 65535) by lia.
  rewrite Z.mod_add by lia. reflexivity.
Qed.

Lemma fold_carries_spec (fuel : nat) :
  forall s, 0 <= s -> s < 65536 + Z.of_nat fuel * 65535 ->
    0 <= fold_carries fuel s < 65536
    /\ fold_carries fuel s mod 65535 = s mod 65535
    /\ (fold_carries fuel s = 0 <-> s = 0).
Proof.
  induction fuel as [| fuel IH]; intros s H0 H1; cbn [fold_carries].
  - repeat split; lia.
  - rewrite Z.gtb_ltb. destruct (Z.ltb_spec 0 (Z.shiftr s 16)) as [L | L].
    + rewrite shiftr16 in L.
      assert (G : 65536 <= s).
      { destruct (Z_lt_ge_dec s 65536) as [C |]; [| lia].
        rewrite Z.div_small in L by lia. lia. }
      destruct (fold_step s G) as [B M]. cbv zeta in B, M.
      assert (0 <= Z.land s 0xFFFF + Z.shiftr s 16
              < 65536 + Z.of_nat fuel * 65535) as [A1 A2] by lia.
      destruct (IH _ A1 A2) as (R1 & R2 & R3).
      rewrite R2, M. repeat split; lia.
    + rewrite shiftr16 in L.
      assert (s < 65536).
      { destruct (Z_lt_ge_dec s 65536) as [| C]; [assumption |].
        assert (1 <= s / 65536) by (apply Z.div_le_lower_bound; lia). lia. }
      repeat split; lia.
Qed.

Lemma fold_carries_le' (fuel : nat) :
  forall s, fold_carries fuel s <= Z.max s 0.
Proof.
  induction fuel as [| fuel IH]; intros s; cbn [fold_carries]; [lia |].
  rewrite Z.gtb_ltb. destruct (Z.ltb_spec 0 (Z.shiftr s 16)) as [L | L];
    [| lia].
  rewrite shiftr16 in L.
  assert (G : 65536 <= s).
  { destruct (Z_lt_ge_dec s 65536) as [C |]; [| lia].
    destruct (Z_lt_ge_dec s 0).
    - assert (s / 65536 < 0) by (apply Z.div_lt_upper_bound; lia). lia.
    - rewrite Z.div_small in L by lia. lia. }
  destruct (fold_step s G) as [B _]. cbv zeta in B.
  specialize (IH (Z.land s 0xFFFF + Z.shiftr s 16)). lia.
Qed.

Lemma fold_carries_le (s : Z) : 0 <= s -> fold_carries (Z.to_nat s) s <= s.
Proof. intros H. pose proof (fold_carries_le' (Z.to_nat s) s). lia. Qed.

(** The fuel [ichecksum] gives the loop is enough: the loop condition is
    false on the value it returns. *)
Lemma fold_carries_exit (s : Z) :
  (Z.shiftr (fold_carries (Z.to_nat s) s) 16 >? 0) = false.
Proof.
  destruct (Z_lt_ge_dec s 0) as [N | P].
  - replace (Z.to_nat s) with 0%nat by lia. cbn [fold_carries].
    rewrite shiftr16, Z.gtb_ltb. apply Z.ltb_ge.
    assert (s / 65536 < 0) by (apply Z.div_lt_upper_bound; lia). lia.
  - destruct (fold_carries_spec (Z.to_nat s) s) as (R & _); try lia.
    rewrite shiftr16, Z.div_small by lia. reflexivity.
Qed.

Lemma lnot_land16 (r : Z) :
  0 <= r < 65536 -> Z.land (Z.lnot r) 0xFFFF = 65535 - r.
Proof.
  intros H. rewrite land16. unfold Z.lnot.
  apply eq_sym, Z.mod_unique with (q := -1); lia.
Qed.

(** What [ichecksum] returns, and when it is zero, in terms of the sum
    of the words. *)
Lemma ichecksum_value (p : Packet) :
  let w := sum_words (pdu p) 0 in
  let r := fold_carries (Z.to_nat w) w in
  ichecksum p 0 = 65535 - r
  /\ 0 <= r < 65536 /\ r mod 65535 = w mod 65535 /\ (r = 0 <-> w = 0).
Proof.
  cbv zeta. pose proof (sum_words_nonneg (pdu p)) as N.
  destruct (fold_carries_spec (Z.to_nat (sum_words (pdu p) 0))
              (sum_words (pdu p) 0)) as (R1 & R2 & R3); try lia.
  unfold ichecksum. rewrite lnot_land16 by assumption. auto.
Qed.

Lemma corrupt_false_iff (p : Packet) :
  corrupt p = false
  <-> 0 < sum_words (pdu p) 0 /\ sum_words (pdu p) 0 mod 65535 = 0.
Proof.
  destruct (ichecksum_value p) as (E & R1 & R2 & R3). cbv zeta in *.
  unfold corrupt. rewrite negb_false_iff, Z.eqb_eq, E.
  pose proof (sum_words_nonneg (pdu p)) as N.
  split.
  - intros H.
    assert (F : fold_carries (Z.to_nat (sum_words (pdu p) 0))
                  (sum_words (pdu p) 0) = 65535) by lia.
    rewrite F in R2, R3. rewrite <- R2. split; [| reflexivity].
    destruct (Z.eq_dec (sum_words (pdu p) 0) 0) as [Z0 | ]; [| lia].
    apply R3 in Z0. lia.
  - intros [P M]. rewrite M in R2.
    apply Z.mod_divide in R2; [| lia]. destruct R2 as [q Q].
    assert (q = 1) by nia. lia.
Qed.

End ChecksumFacts.

(** ** Building a packet and checking it *)

Section PacketFacts.

Lemma sum_words_header (t s hi lo : byte) (data : list byte) :
  sum_words (t :: s :: hi :: lo :: data) 0
  = byte_val t * 256 + byte_val s
    + (byte_val hi * 256 + byte_val lo) + sum_words data 0.
Proof.
  cbn [sum_words]. rewrite sum_words_acc, !shiftl8. lia.
Qed.

(** The constructor succeeds on a type and a sequence number that fit a
    byte; the pdu is the header, the checksum of the pdu with a cleared
    checksum field in bytes 2 and 3, and the data. *)
Lemma Packet_new_ok (type : Z) (sq : seq_arg) (data : list byte) :
  0 <= type < 256 -> 0 <= int_of sq < 256 ->
  exists (t s hi lo : byte),
    Packet_new type sq data = Ok (mkPacket (t :: s :: hi :: lo :: data))
    /\ byte_val t = type /\ byte_val s = int_of sq
    /\ byte_val hi * 256 + byte_val lo
       = ichecksum (mkPacket (t :: s :: x00 :: x00 :: data)) 0.
Proof.
  intros Ht Hs.
  destruct (to_byte_ok type Ht) as (t & Et & Vt).
  destruct (to_byte_ok (int_of sq) Hs) as (s & Es & Vs).
  unfold Packet_new. rewrite Et. cbn [bind]. rewrite Es. cbn [bind app].
  set (c := ichecksum (mkPacket (t :: s :: x00 :: x00 :: data)) 0).
  assert (C : 0 <= c < 65536).
  { destruct (ichecksum_value (mkPacket (t :: s :: x00 :: x00 :: data)))
      as (E & R & _). cbv zeta in E, R. fold c in E. lia. }
  assert (Hhi : 0 <= Z.shiftr c 8 < 256).
  { rewrite Z.shiftr_div_pow2 by lia. change (2 ^ 8) with 256.
    split; [apply Z.div_pos; lia | apply Z.div_lt_upper_bound; lia]. }
  assert (Hlo : 0 <= Z.land c 0xFF < 256).
  { change 0xFF with (Z.ones 8). rewrite Z.land_ones by lia.
    apply Z.mod_pos_bound. lia. }
  destruct (to_byte_ok _ Hhi) as (hi & Ehi & Vhi).
  destruct (to_byte_ok _ Hlo) as (lo & Elo & Vlo).
  rewrite Ehi. cbn [bind]. rewrite Elo. cbn [bind].
  exists t, s, hi, lo. repeat split; try assumption.
  rewrite Vhi, Vlo. rewrite Z.shiftr_div_pow2 by lia.
  change 0xFF with (Z.ones 8). rewrite Z.land_ones by lia.
  change (2 ^ 8) with 256. pose proof (Z.div_mod c 256 ltac:(lia)). lia.
Qed.

Lemma to_byte_accepts (n : Z) (b : byte) :
  to_byte n = Ok b -> 0 <= n < 256.
Proof.
  unfold to_byte.
  destruct ((0 <=? n) && (n <? 256)) eqn:R; [| discriminate].
  apply andb_true_iff in R. destruct R as [R1 R2].
  apply Z.leb_le in R1. apply Z.ltb_lt in R2. lia.
Qed.

(** The constructor returns a packet only for a type and a sequence
    number that fit a byte. *)
Lemma Packet_new_accepts (type : Z) (sq : seq_arg) (data : list byte)
  (p : Packet) :
  Packet_new type sq data = Ok p ->
  0 <= type < 256 /\ 0 <= int_of sq < 256.
Proof.
  unfold Packet_new.
  destruct (to_byte type) as [t |] eqn:Et; cbn [bind]; [| discriminate].
  destruct (to_byte (int_of sq)) as [s |] eqn:Es; cbn [bind];
    [| discriminate].
  intros _. split; eapply to_byte_accepts; eassumption.
Qed.

(** A pdu whose checksum field holds the checksum of the same pdu with
    that field cleared passes the check. *)
Lemma stored_checksum_verifies (t s hi lo : byte) (data : list byte) :
  byte_val hi * 256 + byte_val lo
  = ichecksum (mkPacket (t :: s :: x00 :: x00 :: data)) 0 ->
  corrupt (mkPacket (t :: s :: hi :: lo :: data)) = false.
Proof.
  intros C. apply corrupt_false_iff. cbn [pdu].
  destruct (ichecksum_value (mkPacket (t :: s :: x00 :: x00 :: data)))
    as (E & R1 & R2 & R3). cbv zeta in *. cbn [pdu] in *.
  rewrite sum_words_header, C, E.
  rewrite sum_words_header in R1, R2, R3 |- *.
  change (byte_val x00) with 0 in *.
  pose proof (sum_words_nonneg data) as N.
  pose proof (byte_val_range t). pose proof (byte_val_range s).
  set (w := byte_val t * 256 + byte_val s + (0 * 256 + 0) + sum_words data 0)
    in *.
  set (r := fold_carries (Z.to_nat w) w) in *.
  replace (byte_val t * 256 + byte_val s + (65535 - r) + sum_words data 0)
    with (w - r + 1 * 65535) by (unfold w; lia).
  split.
  - assert (0 <= w) by (unfold w; lia).
    destruct (Z.eq_dec w 0) as [Z0 | NZ].
    + apply R3 in Z0. lia.
    + assert (r <> 0) by (intro Z0; apply R3 in Z0; lia).
      pose proof (fold_carries_le w) as L. fold r in L. lia.
  - rewrite Z.mod_add by lia.
    rewrite Zminus_mod, R2, Z.sub_diag. reflexivity.
Qed.

End PacketFacts.

(** C2. For every payload (of any length), every packet type [DATA], [ACK]
    or [FIN] and every sequence number, given as a [Seq] or as the integer
    it holds, [Packet(type, seq, data)] returns a packet on which [corrupt()]
    is [False]; so does [Packet(DATA, 5, b"ab")]. *)
Theorem encode_then_verify (kind : PType.t) (n : Z) (data : list byte) :
  (exists p : Packet,
      Packet_new (PType.value kind) (SeqObj (Seq.new n)) data = Ok p
      /\ Packet_new (PType.value kind) (SeqInt (Seq.to_int (Seq.new n))) data
         = Ok p
      /\ extract p = data
      /\ corrupt p = false)
  /\ (exists p : Packet,
         Packet_new (PType.value PType.DATA) (SeqInt 5) [x61; x62] = Ok p
         /\ corrupt p = false).
Proof.
  split.
  - assert (Hk : 0 <= PType.value kind < 256) by (destruct kind; cbn; lia).
    pose proof (new_wf n) as W. unfold Seq.wf in W. rewrite MOD_val in W.
    destruct (Packet_new_ok (PType.value kind) (SeqObj (Seq.new n)) data Hk W)
      as (t & s & hi & lo & E & _ & _ & C).
    exists (mkPacket (t :: s :: hi :: lo :: data)).
    repeat split.
    + exact E.
    + exact E.
    + apply stored_checksum_verifies, C.
  - eexists. split; vm_compute; reflexivity.
Qed.

(** ** One flipped bit *)

Section BitFlipFacts.

Lemma byte_val_of (n : Z) : byte_val (byte_of n) = n mod 256.
Proof.
  unfold byte_of, byte_val.
  pose proof (Z.mod_pos_bound n 256 ltac:(lia)) as B.
  destruct (Byte.of_N (Z.to_N (n mod 256))) as [b |] eqn:E.
  - apply Byte.to_of_N in E. rewrite E. lia.
  - apply Byte.of_N_None_iff in E. lia.
Qed.

Lemma land_pow2_clear (b j : Z) :
  0 <= j -> Z.testbit b j = false -> Z.land b (2 ^ j) = 0.
Proof.
  intros J T. apply Z.bits_inj'. intros n N.
  rewrite Z.land_spec, Z.pow2_bits_eqb, Z.bits_0 by assumption.
  destruct (Z.eqb_spec j n) as [-> |]; [rewrite T |];
    auto using andb_false_r.
Qed.

(** Flipping bit [j] adds or takes away [2 ^ j]. *)
Lemma lxor_pow2 (b j : Z) :
  0 <= j ->
  Z.lxor b (2 ^ j) = if Z.testbit b j then b - 2 ^ j else b + 2 ^ j.
Proof.
  intros J. destruct (Z.testbit b j) eqn:T.
  - assert (C : Z.testbit (Z.lxor b (2 ^ j)) j = false).
    { rewrite Z.lxor_spec, T, Z.pow2_bits_eqb, Z.eqb_refl by assumption.
      reflexivity. }
    pose proof (Z.add_nocarry_lxor _ _ (land_pow2_clear _ _ J C)) as A.
    rewrite Z.lxor_assoc, Z.lxor_nilpotent, Z.lxor_0_r in A. lia.
  - symmetry. apply Z.add_nocarry_lxor, land_pow2_clear; assumption.
Qed.

Lemma lxor_byte_range (b m : Z) :
  0 <= b < 256 -> 0 <= m < 256 -> 0 <= Z.lxor b m < 256.
Proof.
  intros B M.
  assert (E : Z.lxor b m = Z.lxor b m mod 256).
  { change 256 with (2 ^ 8). symmetry. apply Z.bits_inj'. intros n N.
    destruct (Z_lt_ge_dec n 8) as [Lo | Hi].
    - apply Z.mod_pow2_bits_low. lia.
    - rewrite Z.mod_pow2_bits_high, Z.lxor_spec by lia.
      rewrite <- (Z.mod_small b (2 ^ 8)), <- (Z.mod_small m (2 ^ 8))
        by (change (2 ^ 8) with 256; lia).
      rewrite !Z.mod_pow2_bits_high by lia. reflexivity. }
  rewrite E. apply Z.mod_pos_bound. lia.
Qed.

(** Replacing one byte moves the sum of the words by the change of the
    byte, times 256 when the byte is the high half of a word. *)
Lemma sum_words_xor_at (l : list byte) :
  forall (i : nat) (m : Z),
    (i < length l)%nat ->
    exists (b : byte) (w : Z),
      nth_error l i = Some b
      /\ (w = 1 \/ w = 256)
      /\ sum_words (xor_at l i m) 0
         = sum_words l 0
           + w * (byte_val (byte_of (Z.lxor (byte_val b) m)) - byte_val b).
Proof.
  induction l as [| b | b0 b1 rest IH] using pairs_ind; intros i m L.
  - cbn [length] in L. lia.
  - destruct i as [| i]; [| cbn [length] in L; lia].
    exists b, 1. cbn [nth_error xor_at sum_words]. repeat split; auto; lia.
  - destruct i as [| [| i]].
    + exists b0, 256. cbn [nth_error xor_at sum_words].
      rewrite (sum_words_acc rest), (sum_words_acc rest (0 + _)), !shiftl8.
      repeat split; auto; lia.
    + exists b1, 1. cbn [nth_error xor_at sum_words].
      rewrite (sum_words_acc rest), (sum_words_acc rest (0 + _)), !shiftl8.
      repeat split; auto; lia.
    + destruct (IH i m) as (b & w & N & W & E);
        [cbn [length] in L; lia |].
      exists b, w. cbn [nth_error xor_at sum_words].
      rewrite (sum_words_acc (xor_at rest i m)), E,
        (sum_words_acc rest (0 + _)).
      repeat split; auto; lia.
Qed.

(** The sum of the words after one bit flip differs from the sum before
    by a power of two between [2 ^ 0] and [2 ^ 15], up or down. *)
Lemma sum_words_flip_bit (l : list byte) (i : nat) (j : Z) :
  (i < length l)%nat -> 0 <= j < 8 ->
  exists d : Z,
    1 <= d <= 32768
    /\ (sum_words (flip_bit l i j) 0 = sum_words l 0 + d
        \/ sum_words (flip_bit l i j) 0 = sum_words l 0 - d).
Proof.
  intros L J. unfold flip_bit.
  destruct (sum_words_xor_at l i (Z.shiftl 1 j) L) as (b & w & _ & W & E).
  rewrite E. clear E.
  rewrite Z.shiftl_mul_pow2, Z.mul_1_l by lia.
  pose proof (byte_val_range b) as B.
  assert (P : 1 <= 2 ^ j <= 128).
  { assert (j = 0 \/ j = 1 \/ j = 2 \/ j = 3 \/ j = 4 \/ j = 5 \/ j = 6
            \/ j = 7) as C by lia.
    repeat (destruct C as [-> | C]; [cbn; lia |]). subst j. cbn. lia. }
  rewrite byte_val_of, Z.mod_small by (apply lxor_byte_range; lia).
  rewrite lxor_pow2 by lia.
  exists (w * 2 ^ j). split; [nia |].
  destruct (Z.testbit (byte_val b) j); [right | left]; lia.
Qed.

End BitFlipFacts.

(** C3. Take any packet built by [Packet(type, seq, data)], for whatever
    type, sequence number and data the constructor accepts, and flip one
    bit of its pdu, at any byte [i] and any bit [j] of that byte:
    [corrupt()] is [True] on the bytes that result. *)
Theorem single_bit_error_detected
  (type : Z) (sq : seq_arg) (data : list byte) (p : Packet) (i : nat) (j : Z) :
  Packet_new type sq data = Ok p ->
  (i < length (pdu p))%nat ->
  0 <= j < 8 ->
  corrupt (Packet_of_pdu (flip_bit (pdu p) i j)) = true.
Proof.
  intros E L J.
  destruct (Packet_new_accepts _ _ _ _ E) as [Ht Hs].
  destruct (Packet_new_ok type sq data Ht Hs)
    as (t & s & hi & lo & E' & _ & _ & C).
  rewrite E in E'. injection E' as ->.
  pose proof (stored_checksum_verifies _ _ _ _ _ C) as V.
  apply corrupt_false_iff in V. destruct V as [V1 V2].
  destruct (corrupt (Packet_of_pdu (flip_bit _ i j))) eqn:F; [reflexivity |].
  apply corrupt_false_iff in F. destruct F as [F1 F2].
  unfold Packet_of_pdu in *. cbn [pdu] in *.
  destruct (sum_words_flip_bit _ i j L J) as (d & D & [S | S]);
    rewrite S in F2;
    apply Z.mod_divide in V2, F2; try lia;
    destruct V2 as [q Q], F2 as [q' Q']; lia.
Qed.

Lemma single_bit_error_detected_witness :
  Packet_new (PType.value PType.DATA) (SeqInt 5) [x61; x62]
  = Ok (mkPacket [x01; x05; x9d; x98; x61; x62])
  /\ (5 < length [x01; x05; x9d; x98; x61; x62])%nat
  /\ 0 <= 7 < 8
  /\ corrupt (Packet_of_pdu (flip_bit [x01; x05; x9d; x98; x61; x62] 5 7))
     = true.
Proof.
  assert (E : Packet_new (PType.value PType.DATA) (SeqInt 5) [x61; x62]
              = Ok (mkPacket [x01; x05; x9d; x98; x61; x62]))
    by (vm_compute; reflexivity).
  assert (L : (5 < length [x01; x05; x9d; x98; x61; x62])%nat)
    by (cbn; lia).
  assert (J : 0 <= 7 < 8) by lia.
  refine (conj E (conj L (conj J _))).
  exact (single_bit_error_detected _ _ _ _ 5%nat 7 E L J).
Defined.

(** ** Dicts and the packet buffer *)

Section DictFacts.

Context {K V : Type} (eqb : K -> K -> bool).
Hypothesis eqb_spec : forall x y : K, reflect (x = y) (eqb x y).

Lemma dict_get_set_same (d : list (K * V)) (k : K) (v : V) :
  dict_get eqb (dict_set eqb d k v) k = Some v.
Proof.
  induction d as [| [k' v'] d IH]; cbn [dict_set dict_get].
  - destruct (eqb_spec k k); congruence.
  - destruct (eqb_spec k' k) as [E | NE]; cbn [dict_get].
    + destruct (eqb_spec k' k); congruence.
    + destruct (eqb_spec k' k); [contradiction | exact IH].
Qed.

Lemma dict_get_set_other (d : list (K * V)) (k k0 : K) (v : V) :
  k0 <> k -> dict_get eqb (dict_set eqb d k v) k0 = dict_get eqb d k0.
Proof.
  intros NE. induction d as [| [k' v'] d IH]; cbn [dict_set dict_get].
  - destruct (eqb_spec k k0); congruence.
  - destruct (eqb_spec k' k) as [E | NE']; cbn [dict_get].
    + subst k'. destruct (eqb_spec k k0); congruence.
    + destruct (eqb_spec k' k0); [reflexivity | exact IH].
Qed.

(** Deleting the only entry of a key takes that entry out and leaves the
    others, in their order. *)
Lemma dict_del_split (l1 l2 : list (K * V)) (k : K) (v : V) :
  ~ In k (map fst l1) ->
  dict_del eqb (l1 ++ (k, v) :: l2) k = l1 ++ l2.
Proof.
  induction l1 as [| [k' v'] l1 IH]; cbn [app dict_del map In fst];
    intros N.
  - destruct (eqb_spec k k); congruence.
  - destruct (eqb_spec k' k) as [E | NE].
    + exfalso. apply N. left. exact E.
    + f_equal. apply IH. intros I. apply N. right. exact I.
Qed.

Lemma dict_get_none_keys (d : list (K * V)) (k : K) :
  dict_get eqb d k = None -> ~ In k (map fst d).
Proof.
  induction d as [| [k' v'] d IH]; cbn [dict_get map In fst]; [tauto |].
  destruct (eqb_spec k' k); [discriminate |]. intros H [E | I];
    [contradiction | exact (IH H I)].
Qed.

(** Assigning to a key keeps the keys when the key is there and puts it
    last otherwise. *)
Lemma dict_set_keys (d : list (K * V)) (k : K) (v : V) :
  map fst (dict_set eqb d k v)
  = if dict_mem eqb d k then map fst d else map fst d ++ [k].
Proof.
  unfold dict_mem.
  induction d as [| [k' v'] d IH]; cbn [dict_set dict_get map fst app];
    [reflexivity |].
  destruct (eqb_spec k' k); cbn [map fst]; [reflexivity |].
  rewrite IH. destruct (dict_get eqb d k); reflexivity.
Qed.

Lemma dict_del_keys_incl (d : list (K * V)) (k k0 : K) :
  In k0 (map fst (dict_del eqb d k)) -> In k0 (map fst d).
Proof.
  induction d as [| [k' v'] d IH]; cbn [dict_del map In fst]; [tauto |].
  destruct (eqb_spec k' k); cbn [map In fst]; tauto.
Qed.

(** The three operations keep a dict a dict: no key twice. *)
Lemma dict_set_nodup (d : list (K * V)) (k : K) (v : V) :
  NoDup (map fst d) -> NoDup (map fst (dict_set eqb d k v)).
Proof.
  intros D. rewrite dict_set_keys. unfold dict_mem.
  destruct (dict_get eqb d k) eqn:G; [exact D |].
  apply dict_get_none_keys in G.
  apply NoDup_rev in D. rewrite <- (rev_involutive (map fst d ++ [k])).
  apply NoDup_rev. rewrite rev_app_distr. cbn [rev app].
  constructor; [rewrite <- in_rev; exact G | exact D].
Qed.

Lemma dict_del_nodup (d : list (K * V)) (k : K) :
  NoDup (map fst d) -> NoDup (map fst (dict_del eqb d k)).
Proof.
  induction d as [| [k' v'] d IH]; cbn [dict_del map fst]; intros D;
    [exact D |].
  inversion D as [| ? ? N D']; subst.
  destruct (eqb_spec k' k); [exact D' |]. cbn [map fst].
  constructor; [| exact (IH D')].
  intros I. apply N. eapply dict_del_keys_incl. exact I.
Qed.

End DictFacts.

Section PacketBufferFacts.

Import PacketBuffer.

Lemma getitem_setitem (b : t) (s s' : Seq.t) (p : Packet) :
  exists b',
    setitem b (PySeq s) p = Ok b'
    /\ bufsize b' = bufsize b
    /\ getitem b' (PySeq s) = Ok (Some p)
    /\ (Seq.seq s' <> Seq.seq s -> getitem b' (PySeq s') = getitem b (PySeq s')).
Proof.
  eexists. split; [reflexivity |]. split; [reflexivity |].
  unfold getitem. cbn [check_key bind buf]. split.
  - rewrite (dict_get_set_same Z.eqb Z.eqb_spec). reflexivity.
  - intros NE. rewrite (dict_get_set_other Z.eqb Z.eqb_spec) by assumption.
    reflexivity.
Qed.

Lemma fill_frame (items : list (Z * Packet)) :
  forall (b b' : t) (s : Seq.t),
    fill b items = Ok b' ->
    ~ In (Seq.seq s) (map (fun np => Seq.seq (Seq.new (fst np))) items) ->
    getitem b' (PySeq s) = getitem b (PySeq s).
Proof.
  induction items as [| [n p] items IH]; intros b b' s F N;
    cbn [fill] in F.
  - injection F as <-. reflexivity.
  - destruct (getitem_setitem b (Seq.new n) s p) as (b1 & S & _ & _ & O).
    rewrite S in F. cbn [bind] in F. cbn [map In fst] in N.
    rewrite (IH b1 b' s F) by tauto. apply O. intros E. apply N. left.
    symmetry. exact E.
Qed.

Lemma fill_stores (items : list (Z * Packet)) :
  forall b : t,
    NoDup (map (fun np => Seq.seq (Seq.new (fst np))) items) ->
    exists b',
      fill b items = Ok b'
      /\ bufsize b' = bufsize b
      /\ forall n p, In (n, p) items ->
                     getitem b' (PySeq (Seq.new n)) = Ok (Some p).
Proof.
  induction items as [| [n p] items IH]; intros b D; cbn [fill].
  - exists b. repeat split. intros n p [].
  - destruct (getitem_setitem b (Seq.new n) (Seq.new n) p)
      as (b1 & S & Z1 & G & _).
    rewrite S. cbn [bind]. cbn [map fst] in D. inversion D as [| ? ? N D'].
    subst. destruct (IH b1 D') as (b' & F & Z2 & A).
    exists b'. split; [exact F |]. split; [congruence |].
    intros n' p' [E | I].
    + injection E as <- <-.
      rewrite (fill_frame items b1 b' (Seq.new n) F N). exact G.
    + apply A, I.
Qed.

End PacketBufferFacts.

(** C10. In every packet buffer, whatever its [bufsize] and its contents:
    after [b[s] = p], reading [b[s]] returns [p], and so does reading
    [b[t]] for any [Seq] [t] holding the same value modulo 256, while
    [bufsize] and every other cell are as before; after [del b[s]],
    [b[s]] returns [None]; a buffer of any [bufsize] takes a packet in
    each of its 256 cells and returns each of them; and indexing with
    anything but a [Seq] raises [TypeError] on reading, writing and
    deleting. *)
Theorem packet_buffer_slots (b : PacketBuffer.t) (p : Packet) :
  (forall x y : Z,
      x mod 256 = y mod 256 ->
      exists b',
        PacketBuffer.setitem b (PySeq (Seq.new x)) p = Ok b'
        /\ PacketBuffer.getitem b' (PySeq (Seq.new x)) = Ok (Some p)
        /\ PacketBuffer.getitem b' (PySeq (Seq.new y)) = Ok (Some p)
        /\ PacketBuffer.bufsize b' = PacketBuffer.bufsize b
        /\ (forall z, z mod 256 <> x mod 256 ->
                      PacketBuffer.getitem b' (PySeq (Seq.new z))
                      = PacketBuffer.getitem b (PySeq (Seq.new z))))
  /\ (forall x : Z,
         exists b',
           PacketBuffer.delitem b (PySeq (Seq.new x)) = Ok b'
           /\ PacketBuffer.getitem b' (PySeq (Seq.new x)) = Ok None)
  /\ (forall (bufsize : Z) (f : Z -> Packet),
         exists b',
           PacketBuffer.fill (PacketBuffer.new bufsize)
             (map (fun i => (Z.of_nat i, f (Z.of_nat i))) (List.seq 0 256))
           = Ok b'
           /\ PacketBuffer.bufsize b' = bufsize
           /\ forall n, 0 <= n < 256 ->
                        PacketBuffer.getitem b' (PySeq (Seq.new n))
                        = Ok (Some (f n)))
  /\ (forall k : pyobj,
         (forall s, k <> PySeq s) ->
         PacketBuffer.getitem b k = Raise TypeError
         /\ PacketBuffer.setitem b k p = Raise TypeError
         /\ PacketBuffer.delitem b k = Raise TypeError).
Proof.
  split; [| split; [| split]].
  - intros x y E.
    destruct (getitem_setitem b (Seq.new x) (Seq.new x) p)
      as (b' & S & Z1 & G & _).
    exists b'. repeat split; try assumption.
    + replace (Seq.new y) with (Seq.new x); [exact G |].
      unfold Seq.new. rewrite MOD_val. congruence.
    + intros z NE.
      destruct (getitem_setitem b (Seq.new x) (Seq.new z) p)
        as (b'' & S' & _ & _ & O).
      rewrite S in S'. injection S' as <-. apply O.
      unfold Seq.new; cbn [Seq.seq]. rewrite MOD_val. exact NE.
  - intros x. eexists. split; [reflexivity |].
    unfold PacketBuffer.getitem.
    cbn [PacketBuffer.check_key bind PacketBuffer.buf].
    rewrite (dict_get_set_same Z.eqb Z.eqb_spec). reflexivity.
  - intros n f.
    destruct (fill_stores
                (map (fun i => (Z.of_nat i, f (Z.of_nat i))) (List.seq 0 256))
                (PacketBuffer.new n)) as (b' & F & Z1 & A).
    + rewrite map_map. cbn [fst].
      apply NoDup_map_NoDup_ForallPairs; [| apply seq_NoDup].
      intros i j I J E. apply in_seq in I, J.
      unfold Seq.new in E; cbn [Seq.seq] in E. rewrite MOD_val in E.
      rewrite !Z.mod_small in E by lia. lia.
    + exists b'. split; [exact F |]. split; [exact Z1 |].
      intros k K. apply A. apply in_map_iff. exists (Z.to_nat k).
      split; [| apply in_seq; lia].
      rewrite Z2Nat.id by lia. reflexivity.
  - intros k NS. destruct k as [s | | |]; [exfalso; eapply NS; reflexivity | ..];
      repeat split; reflexivity.
Qed.

(** ** The timer *)

Section TimerFacts.

Import Timer.

Lemma Ev_eqb_spec (a b : Ev) : reflect (a = b) (Ev_eqb a b).
Proof. destruct a, b; constructor; (reflexivity || discriminate). Qed.

Lemma insert_by_expiry_In (x y : Ev * Q) (l : list (Ev * Q)) :
  In y (insert_by_expiry x l) <-> y = x \/ In y l.
Proof.
  induction l as [| z l IH]; cbn [insert_by_expiry In].
  - intuition.
  - destruct (Qle_bool (snd x) (snd z)); cbn [In]; rewrite ?IH; intuition.
Qed.

Lemma sorted_by_expiry_In (y : Ev * Q) (l : list (Ev * Q)) :
  In y (sorted_by_expiry l) <-> In y l.
Proof.
  induction l as [| x l IH]; cbn [sorted_by_expiry fold_right In];
    [reflexivity |].
  fold (sorted_by_expiry l). rewrite insert_by_expiry_In, IH. intuition.
Qed.

(** The sorted list starts with an item that expires no later than any
    other. *)
Lemma sorted_by_expiry_head (l : list (Ev * Q)) :
  match sorted_by_expiry l with
  | [] => l = []
  | x :: _ => forall y, In y l -> (snd x <= snd y)%Q
  end.
Proof.
  induction l as [| a l IH]; cbn [sorted_by_expiry fold_right];
    [reflexivity |].
  fold (sorted_by_expiry l).
  destruct (sorted_by_expiry l) as [| x r]; cbn [insert_by_expiry].
  - subst l. intros y [<- | []]. apply Qle_refl.
  - destruct (Qle_bool (snd a) (snd x)) eqn:C.
    + apply Qle_bool_iff in C. intros y [<- | I]; [apply Qle_refl |].
      eapply Qle_trans; [exact C | apply IH, I].
    + assert (L : (snd x <= snd a)%Q).
      { destruct (Qlt_le_dec (snd x) (snd a)) as [L | L];
          [apply Qlt_le_weak, L |].
        apply Qle_bool_iff in L. congruence. }
      intros y [<- | I]; [exact L | apply IH, I].
Qed.

(** What the loop over the sorted items finds. *)
Lemma find_expired (l : list (Ev * Q)) (now : Q) :
  match find (fun kt => Qle_bool (snd kt) now) (sorted_by_expiry l) with
  | Some x =>
      In x l /\ (snd x <= now)%Q /\ forall y, In y l -> (snd x <= snd y)%Q
  | None => forall y, In y l -> ~ (snd y <= now)%Q
  end.
Proof.
  pose proof (sorted_by_expiry_head l) as H.
  pose proof (fun y => sorted_by_expiry_In y l) as P.
  destruct (sorted_by_expiry l) as [| x r]; cbn [find].
  - subst l. intros y [].
  - destruct (Qle_bool (snd x) now) eqn:C.
    + apply Qle_bool_iff in C. repeat split; try assumption.
      apply P. left. reflexivity.
    + destruct (find _ r) as [z |] eqn:F.
      * apply find_some in F. destruct F as [I Z].
        apply Qle_bool_iff in Z.
        assert (X : (snd x <= now)%Q).
        { eapply Qle_trans; [| exact Z]. apply H, P. right. exact I. }
        apply Qle_bool_iff in X. congruence.
      * intros y I L.
        assert (X : (snd x <= now)%Q)
          by (eapply Qle_trans; [apply H, I | exact L]).
        apply Qle_bool_iff in X. congruence.
Qed.

Lemma dict_get_absent (l : list (Ev * Q)) (k : Ev) :
  ~ In k (map fst l) -> dict_get Ev_eqb l k = None.
Proof.
  induction l as [| [k' v] l IH]; cbn [map In fst dict_get]; intros N;
    [reflexivity |].
  destruct (Ev_eqb_spec k' k); [tauto | apply IH; tauto].
Qed.

Lemma dict_get_app_other (l1 l2 : list (Ev * Q)) (k k' : Ev) (v : Q) :
  k' <> k ->
  dict_get Ev_eqb (l1 ++ (k, v) :: l2) k' = dict_get Ev_eqb (l1 ++ l2) k'.
Proof.
  intros NE. induction l1 as [| [a w] l1 IH]; cbn [app dict_get].
  - destruct (Ev_eqb_spec k k'); congruence.
  - rewrite IH. reflexivity.
Qed.

(** The registry starts as a dict and every operation of the timer keeps
    it one. *)
Lemma timer_times_nodup (tm : t) (key : Ev) (clock : Q) :
  NoDup (map fst (times (new TO_interval)))
  /\ (NoDup (map fst (times tm)) ->
      (forall tm', start_timer tm key clock = Ok tm' ->
                   NoDup (map fst (times tm')))
      /\ NoDup (map fst (times (stop_timer tm key)))
      /\ NoDup (map fst (times (snd (check_timeout tm clock))))).
Proof.
  split; [constructor |]. intros D. split; [| split].
  - unfold start_timer. intros tm'.
    destruct (dict_get Ev_eqb (intv tm) key); [| discriminate].
    intros H; injection H as <-. cbn [times].
    apply (dict_set_nodup Ev_eqb Ev_eqb_spec), D.
  - unfold stop_timer. destruct (dict_mem Ev_eqb (times tm) key);
      [| exact D].
    cbn [times]. apply (dict_del_nodup Ev_eqb Ev_eqb_spec), D.
  - unfold check_timeout. cbv zeta.
    destruct (find _ (sorted_by_expiry (times tm))) as [[k t0] |];
      [| exact D].
    cbn [snd times]. apply (dict_del_nodup Ev_eqb Ev_eqb_spec), D.
Qed.

End TimerFacts.

(** C7. For every timer registry (a dict: each kind of timeout at most
    once) and every reading of the clock, [check_timeout] returns [None],
    and leaves the timer as it is, when no pending expiry is at or before
    [now]; otherwise it returns a kind whose expiry [t] is at or before
    [now] and no later than any other pending expiry, and the registry
    afterwards is the one before without that one entry: the entry of the
    kind is gone, every other kind has the expiry it had, in the same
    order, and the intervals are untouched. *)
Theorem check_timeout_poll (tm : Timer.t) (now : Q) :
  NoDup (map fst (Timer.times tm)) ->
  match Timer.check_timeout tm now with
  | (None, tm') =>
      tm' = tm
      /\ forall k t, In (k, t) (Timer.times tm) -> ~ (t <= now)%Q
  | (Some k, tm') =>
      exists (t : Q) (l1 l2 : list (Ev * Q)),
        Timer.times tm = l1 ++ (k, t) :: l2
        /\ Timer.times tm' = l1 ++ l2
        /\ Timer.intv tm' = Timer.intv tm
        /\ (t <= now)%Q
        /\ (forall k' t', In (k', t') (Timer.times tm) -> (t <= t')%Q)
        /\ dict_get Ev_eqb (Timer.times tm') k = None
        /\ (forall k', k' <> k ->
                       dict_get Ev_eqb (Timer.times tm') k'
                       = dict_get Ev_eqb (Timer.times tm) k')
  end.
Proof.
  intros D. unfold Timer.check_timeout. cbv zeta.
  pose proof (find_expired (Timer.times tm) now) as F.
  destruct (find _ (Timer.sorted_by_expiry (Timer.times tm)))
    as [[k t] |].
  - destruct F as (I & L & M). cbn [snd] in L, M.
    destruct (in_split _ _ I) as (l1 & l2 & E).
    rewrite E in D. rewrite map_app in D. cbn [map fst] in D.
    pose proof (NoDup_remove_2 _ _ _ D) as N.
    assert (N1 : ~ In k (map fst l1)) by (intro; apply N, in_or_app; auto).
    exists t, l1, l2. cbn [Timer.times Timer.intv].
    rewrite E, (dict_del_split Ev_eqb Ev_eqb_spec) by exact N1.
    repeat split; try assumption.
    + intros k' t' I'. apply (M (k', t')). rewrite E. exact I'.
    + apply dict_get_absent. rewrite map_app. exact N.
    + intros k' NE. symmetry. apply dict_get_app_other. exact NE.
  - split; [reflexivity |]. intros k t I. apply (F (k, t) I).
Qed.

Lemma check_timeout_poll_witness :
  NoDup (map fst (Timer.times two_timers))
  /\ exists (t : Q) (l1 l2 : list (Ev * Q)),
       fst (Timer.check_timeout two_timers (1 # 2)%Q) = Some TO_Retransmit
       /\ Timer.times two_timers = l1 ++ (TO_Retransmit, t) :: l2
       /\ Timer.times (snd (Timer.check_timeout two_timers (1 # 2)%Q))
          = l1 ++ l2
       /\ (t <= 1 # 2)%Q.
Proof.
  assert (D : NoDup (map fst (Timer.times two_timers))).
  { cbn. repeat constructor; cbn; intuition discriminate. }
  split; [exact D |].
  pose proof (check_timeout_poll two_timers (1 # 2)%Q D) as H.
  change (Timer.check_timeout two_timers (1 # 2)%Q)
    with (Some TO_Retransmit,
          Timer.mk [(TO_Closing, 1%Q)] (Timer.intv two_timers)) in H |- *.
  cbv iota beta in H.
  destruct H as (t & l1 & l2 & H1 & H2 & _ & H4 & _).
  exists t, l1, l2. cbn [fst snd]. auto.
Defined.

(** ** The reference checksum *)

Section ReferenceChecksumFacts.

Lemma fold_carries_closed_form (t : Z) :
  0 <= t -> fold_carries (Z.to_nat t) t = end_around_carry t.
Proof.
  intros H. unfold end_around_carry.
  destruct (fold_carries_spec (Z.to_nat t) t) as (R1 & R2 & R3); try lia.
  destruct (Z.eqb_spec t 0) as [-> | NZ]; [apply R3; reflexivity |].
  assert (fold_carries (Z.to_nat t) t <> 0) by (rewrite R3; exact NZ).
  set (r := fold_carries (Z.to_nat t) t) in *.
  assert (E : (t - 1) mod 65535 = r - 1).
  { symmetry.
    apply Z.mod_unique with (q := (t - r) / 65535); [lia |].
    assert (D : (t - r) mod 65535 = 0)
      by (rewrite Zminus_mod, R2, Z.sub_diag; reflexivity).
    pose proof (Z.div_mod (t - r) 65535 ltac:(lia)). lia. }
  lia.
Qed.

(** On an even number of bytes the loop of [ichecksum] adds up the
    big-endian words. *)
Lemma sum_words_even (l : list byte) :
  Nat.even (length l) = true ->
  sum_words l 0 = fold_right Z.add 0 (be_words l).
Proof.
  induction l as [| b | b0 b1 rest IH] using pairs_ind;
    cbn [length Nat.even sum_words be_words fold_right]; intros E.
  - reflexivity.
  - discriminate.
  - rewrite sum_words_acc, shiftl8, IH by exact E. lia.
Qed.

Lemma ichecksum_closed_form (l : list byte) :
  ichecksum (mkPacket l) 0 = 65535 - end_around_carry (sum_words l 0).
Proof.
  destruct (ichecksum_value (mkPacket l)) as (E & _). cbv zeta in E.
  cbn [pdu] in E. rewrite E, fold_carries_closed_form; [reflexivity |].
  apply sum_words_nonneg.
Qed.

(** On an odd number of bytes the loop takes the last byte as the low
    byte of a word: it adds up the big-endian words of the bytes with a
    zero byte put in front of the last one. *)
Lemma sum_words_odd (l : list byte) (b : byte) :
  Nat.even (length l) = true ->
  sum_words (l ++ [b]) 0 = fold_right Z.add 0 (be_words (l ++ [x00; b])).
Proof.
  induction l as [| b0 | b0 b1 rest IH] using pairs_ind;
    cbn [length Nat.even app sum_words be_words fold_right]; intros E.
  - change (byte_val x00) with 0. lia.
  - discriminate.
  - rewrite sum_words_acc, shiftl8, IH by exact E. lia.
Qed.

End ReferenceChecksumFacts.

(** C5 (the code departs from the specification on an odd number of
    bytes).  On a pdu of even length [ichecksum()] is the Internet checksum
    of the reference definition.  On a pdu of odd length it is the
    Internet checksum of the pdu with a zero byte put in front of its last
    byte: the loop adds a trailing odd byte as [pdu[i]], the low byte of a
    word, where the reference pads it with a zero byte on the right,
    [pdu[i] << 8].  On the header and data of [Packet(DATA, 5, b"a")],
    [b"\x01\x05\x00\x00a"], it returns [0xFE99] and the reference gives
    [0x9DFA]; on [b"\x01"], [0xFFFE] and [0xFEFF]. *)
Theorem ichecksum_odd_trailing_byte :
  (forall l : list byte,
      Nat.even (length l) = true ->
      ichecksum (mkPacket l) 0 = internet_checksum l)
  /\ (forall (l : list byte) (b : byte),
         Nat.even (length l) = true ->
         ichecksum (mkPacket (l ++ [b])) 0
         = internet_checksum (l ++ [x00; b]))
  /\ ichecksum (mkPacket [x01; x05; x00; x00; x61]) 0 = 0xFE99
  /\ internet_checksum [x01; x05; x00; x00; x61] = 0x9DFA
  /\ Packet_new (PType.value PType.DATA) (SeqInt 5) [x61]
     = Ok (mkPacket [x01; x05; xfe; x99; x61])
  /\ ichecksum (mkPacket [x01]) 0 = 0xFFFE
  /\ internet_checksum [x01] = 0xFEFF.
Proof.
  split; [| split; [| repeat split; vm_compute; reflexivity]].
  - intros l E. rewrite ichecksum_closed_form, sum_words_even by exact E.
    reflexivity.
  - intros l b E. rewrite ichecksum_closed_form, sum_words_odd by exact E.
    reflexivity.
Qed.

(** ** The sender *)

Section SenderFacts.

Import GBNsend.

(** The test of [get_event] lets [App_Request] through only when the
    window has room. *)
Lemma window_gate (s : t) :
  window_ok s ->
  Seq.lt (next_seq s) (Seq.add (base s) (N s)) = true ->
  forward_distance (base s) (next_seq s) < N s.
Proof.
  intros (Wb & Wn & HN & D) L.
  apply lt_forward in L; [| assumption | apply add_wf].
  unfold forward_distance in *. rewrite MOD_val in *.
  unfold Seq.add, Seq.new in L. cbn [Seq.seq] in L. rewrite MOD_val in L.
  rewrite Zminus_mod_idemp_l in L.
  pose proof (Z.mod_pos_bound (Seq.seq (next_seq s) - Seq.seq (base s)) 256
                ltac:(lia)) as B.
  assert (E : (Seq.seq (base s) + N s - Seq.seq (next_seq s)) mod 256
              = N s - (Seq.seq (next_seq s) - Seq.seq (base s)) mod 256).
  { replace (Seq.seq (base s) + N s - Seq.seq (next_seq s))
      with (N s - (Seq.seq (next_seq s) - Seq.seq (base s))) by lia.
    rewrite <- Zminus_mod_idemp_r. apply Z.mod_small. lia. }
  lia.
Qed.

(** With room in the window, one more sequence number keeps the
    bound. *)
Lemma window_room (s : t) :
  window_ok s ->
  forward_distance (base s) (next_seq s) < N s ->
  forward_distance (base s) (Seq.add (next_seq s) 1)
  = forward_distance (base s) (next_seq s) + 1.
Proof.
  intros (Wb & Wn & HN & D) L.
  unfold forward_distance in *. rewrite MOD_val in *.
  unfold Seq.add, Seq.new. cbn [Seq.seq]. rewrite MOD_val.
  rewrite Zminus_mod_idemp_l.
  pose proof (Z.mod_pos_bound (Seq.seq (next_seq s) - Seq.seq (base s)) 256
                ltac:(lia)) as B.
  replace (Seq.seq (next_seq s) + 1 - Seq.seq (base s))
    with (Seq.seq (next_seq s) - Seq.seq (base s) + 1) by lia.
  rewrite <- Zplus_mod_idemp_l. apply Z.mod_small. lia.
Qed.

Lemma check_event_queue (g g' : GBN.t) (env : GBN.poll) (q : bool)
  (r : option Ev) :
  GBN.check_event g env q = Ok (r, g') ->
  GBN.down_queue g' = GBN.down_queue g
  /\ GBN.sock g' = GBN.sock g /\ GBN.stats g' = GBN.stats g.
Proof.
  unfold GBN.check_event.
  destruct (GBN.exceptional env); [discriminate |].
  destruct (GBN.readable env); [intros H; injection H as <- <-; auto |].
  destruct (Timer.check_timeout (GBN.timer g) (GBN.now env)) as [e tm].
  destruct e as [e |]; [intros H; injection H as <- <-; auto |].
  destruct (negb q); [intros H; injection H as <- <-; auto |].
  unfold GBN.set_timer at 1. cbn [GBN.down_queue].
  destruct (GBN.down_queue g) eqn:Q; intros H; injection H as <- <-;
    cbn; auto.
Qed.

Lemma get_event_once_frame (s s' : t) (env : GBN.poll) (r : option Ev) :
  get_event_once s env = Ok (r, s') ->
  same_window s s' /\ state s' = state s
  /\ GBN.down_queue (gbn s') = GBN.down_queue (gbn s)
  /\ GBN.sock (gbn s') = GBN.sock (gbn s)
  /\ (r = Some App_Request ->
      Seq.lt (next_seq s) (Seq.add (base s) (N s)) = true).
Proof.
  unfold get_event_once, same_window.
  destruct (GBN.check_event (gbn s) env true) as [[e g] | x] eqn:C;
    cbn [bind]; [| discriminate].
  apply check_event_queue in C. destruct C as (Q & K & _).
  destruct e as [[] |]; cbn [set_gbn next_seq base N];
    try (intros H; injection H as <- <-; cbn;
         repeat split; auto; discriminate).
  destruct (Seq.lt (next_seq s) (Seq.add (base s) (N s))) eqn:L;
    cbn [negb]; intros H; injection H as <- <-; cbn;
    repeat split; auto; discriminate.
Qed.

Lemma get_event_frame (polls : list GBN.poll) :
  forall (s s' : t) (r : option Ev),
    get_event s polls = Ok (r, s') ->
    same_window s s' /\ state s' = state s
    /\ GBN.down_queue (gbn s') = GBN.down_queue (gbn s)
    /\ GBN.sock (gbn s') = GBN.sock (gbn s)
    /\ (r = Some App_Request ->
        Seq.lt (next_seq s) (Seq.add (base s) (N s)) = true).
Proof.
  unfold same_window.
  induction polls as [| env polls IH]; intros s s' r; cbn [get_event].
  - intros H; injection H as <- <-. repeat split; auto; discriminate.
  - destruct (get_event_once s env) as [[e s1] | x] eqn:G; cbn [bind];
      [| discriminate].
    apply get_event_once_frame in G.
    destruct G as ((G1 & G2 & G3 & G4) & G5 & G6 & G7 & G8).
    destruct e as [e |].
    + intros H; injection H as <- <-. repeat split; auto.
    + intros H. apply IH in H.
      destruct H as ((H1 & H2 & H3 & H4) & H5 & H6 & H7 & H8).
      repeat split; try congruence.
      intros E. specialize (H8 E). rewrite G1, G2, G3 in H8. exact H8.
Qed.

Lemma fsm_body_frame (s s' : t) (e : Ev) (dgram : list byte) :
  fsm_body s e dgram = Ok s' -> same_window s s'.
Proof.
  unfold fsm_body, same_window, handle_ACK, retransmit.
  destruct e; cbn [bind]; try discriminate;
    try (destruct (GBN.rdt_rcv (gbn s) dgram) as [g pkt]; cbn [bind]);
    cbn [set_gbn state base next_seq];
    repeat match goal with
           | |- context [match ?c with _ => _ end] => destruct c
           end;
    try discriminate;
    intros H; injection H as <-; cbn; auto.
Qed.

Lemma step_frame (s s' : t) : step s s' -> same_window s s'.
Proof.
  unfold same_window. intros [s0 data Q | s0 s1 env dgram NC F].
  - cbn. auto.
  - unfold fsm_step in F.
    destruct (get_event_once s0 env) as [[e s2] | x] eqn:G; cbn [bind] in F;
      [| discriminate].
    apply get_event_once_frame in G. destruct G as ((G1 & G2 & G3 & G4) & _).
    destruct e as [e |].
    + apply fsm_body_frame in F. destruct F as (F1 & F2 & F3 & F4).
      repeat split; congruence.
    + injection F as <-. auto.
Qed.

Lemma reachable_frame (s0 s : t) : reachable s0 s -> same_window s0 s.
Proof.
  unfold same_window. induction 1 as [| s s' R IH S].
  - auto.
  - apply step_frame in S. destruct S as (S1 & S2 & S3 & S4).
    destruct IH as (I1 & I2 & I3 & I4). repeat split; congruence.
Qed.

End SenderFacts.

(** C1. A sender opened with a window size [0 <= N < 256]: in every state
    it reaches, [N] is the configured size and [next_seq] is at most [N]
    steps ahead of [base].  In any state within that bound, [get_event]
    returns [App_Request] only when [next_seq] is fewer than [N] steps
    ahead of [base], so that one more sequence number keeps the bound,
    and it does not return [App_Request] when the window is full.
    Whatever [get_event] returns, it leaves the chunk in the down queue
    where it is, and [base], [next_seq] and [N] as they are. *)
Theorem sender_window_bound (peer : GBN.address) (n : Z) :
  0 <= n < Seq.MOD ->
  (forall s : GBNsend.t,
      GBNsend.reachable (GBNsend.new peer n) s ->
      GBNsend.N s = n /\ window_ok s)
  /\ (forall (s s' : GBNsend.t) (polls : list GBN.poll),
         window_ok s ->
         GBNsend.get_event s polls = Ok (Some App_Request, s') ->
         forward_distance (GBNsend.base s) (GBNsend.next_seq s) < GBNsend.N s
         /\ forward_distance (GBNsend.base s)
              (Seq.add (GBNsend.next_seq s) 1) <= GBNsend.N s)
  /\ (forall (s s' : GBNsend.t) (polls : list GBN.poll) (r : option Ev),
         window_ok s ->
         forward_distance (GBNsend.base s) (GBNsend.next_seq s) = GBNsend.N s ->
         GBNsend.get_event s polls = Ok (r, s') ->
         r <> Some App_Request)
  /\ (forall (s s' : GBNsend.t) (polls : list GBN.poll) (r : option Ev),
         GBNsend.get_event s polls = Ok (r, s') ->
         GBN.down_queue (GBNsend.gbn s') = GBN.down_queue (GBNsend.gbn s)
         /\ GBNsend.base s' = GBNsend.base s
         /\ GBNsend.next_seq s' = GBNsend.next_seq s
         /\ GBNsend.N s' = GBNsend.N s).
Proof.
  intros Hn.
  assert (Gate : forall (s s' : GBNsend.t) (polls : list GBN.poll),
             window_ok s ->
             GBNsend.get_event s polls = Ok (Some App_Request, s') ->
             forward_distance (GBNsend.base s) (GBNsend.next_seq s)
             < GBNsend.N s).
  { intros s s' polls W G. apply get_event_frame in G.
    apply window_gate; [exact W | apply G; reflexivity]. }
  split; [| split; [| split]].
  - intros s R. apply reachable_frame in R.
    destruct R as (R1 & R2 & R3 & _). split; [exact R1 |].
    unfold window_ok. rewrite R1, R2, R3.
    cbn [GBNsend.new GBNsend.base GBNsend.next_seq GBNsend.N].
    repeat split; try apply new_wf; try lia.
    rewrite forward_distance_new, Z.sub_diag, Zmod_0_l. lia.
  - intros s s' polls W G. pose proof (Gate s s' polls W G) as L.
    split; [exact L |]. rewrite window_room by assumption. lia.
  - intros s s' polls r W F G ->. pose proof (Gate s s' polls W G). lia.
  - intros s s' polls r G. apply get_event_frame in G.
    destruct G as ((G1 & G2 & G3 & _) & _ & G5 & _). auto.
Qed.

Lemma sender_window_bound_witness :
  0 <= 2 < Seq.MOD
  /\ forall s : GBNsend.t,
       GBNsend.reachable (GBNsend.new (String.EmptyString, receiver_port) 2) s ->
       GBNsend.N s = 2 /\ window_ok s.
Proof.
  assert (H : 0 <= 2 < Seq.MOD) by (rewrite MOD_val; lia).
  split; [exact H |].
  exact (proj1 (sender_window_bound (String.EmptyString, receiver_port) 2 H)).
Defined.

Section RetransmitFacts.


End RetransmitFacts.




(* ================================================================== *)
(** * Part III. Further properties of the code *)
(* ================================================================== *)

(** ** Sequence arithmetic and the derived comparisons *)

(** X1. On sequence numbers, going [n] steps forward and [n] steps back,
    or back and then forward, returns to the start, for every integer
    [n], negative or beyond 256; going back [n] steps is going forward
    [- n] steps; steps add up; a full turn of 256 changes nothing. *)
Theorem seq_add_sub_inverse (x n m : Z) :
  Seq.sub (Seq.add (Seq.new x) n) n = Seq.new x
  /\ Seq.add (Seq.sub (Seq.new x) n) n = Seq.new x
  /\ Seq.sub (Seq.new x) n = Seq.add (Seq.new x) (- n)
  /\ Seq.add (Seq.add (Seq.new x) n) m = Seq.add (Seq.new x) (n + m)
  /\ Seq.add (Seq.new x) (n + Seq.MOD) = Seq.add (Seq.new x) n
  /\ Seq.eq (Seq.add (Seq.new x) n) (Seq.new (x + n)) = true.
Proof.
  unfold Seq.sub, Seq.add, Seq.new, Seq.eq. cbn [Seq.seq].
  rewrite MOD_val, Z.eqb_eq.
  repeat split; try apply (f_equal Seq.mk); Z.div_mod_to_equations; lia.
Qed.

Section ComparisonFacts.

(** The four comparisons on constructed values, by the forward
    distance. *)
Lemma comparisons_by_distance (x y : Z) :
  let d := forward_distance (Seq.new x) (Seq.new y) in
  0 <= d < 256
  /\ forward_distance (Seq.new y) (Seq.new x) = (if d =? 0 then 0 else 256 - d)
  /\ Seq.eq (Seq.new x) (Seq.new y) = (d =? 0)
  /\ Seq.lt (Seq.new x) (Seq.new y) = (0 <? d) && (d <? 128).
Proof.
  cbv zeta.
  pose proof (new_wf x) as Hx. pose proof (new_wf y) as Hy.
  pose proof (lt_forward _ _ Hx Hy) as L.
  pose proof (eq_true_iff (Seq.new x) (Seq.new y)) as E.
  change ((Seq.seq (Seq.new y) - Seq.seq (Seq.new x)) mod 256)
    with (forward_distance (Seq.new x) (Seq.new y)) in L.
  destruct (forward_backward _ _ Hx Hy) as [(F & B & Q) | (F & B & Q)].
  - rewrite F, B in *. cbn. repeat split; try lia.
    + apply E, Q.
    + destruct (Seq.lt (Seq.new x) (Seq.new y)); [| reflexivity].
      destruct L as [L _]. specialize (L eq_refl). lia.
  - rewrite B. destruct (Z.eqb_spec (forward_distance (Seq.new x) (Seq.new y)) 0);
      [lia |].
    repeat split; try lia.
    + destruct (Seq.eq (Seq.new x) (Seq.new y)); [| reflexivity].
      exfalso. apply Q, E. reflexivity.
    + destruct (Seq.lt (Seq.new x) (Seq.new y)).
      * destruct L as [L _]. specialize (L eq_refl). symmetry.
        apply andb_true_iff. split; apply Z.ltb_lt; lia.
      * symmetry. apply andb_false_iff.
        destruct (Z_lt_ge_dec (forward_distance (Seq.new x) (Seq.new y)) 128)
          as [S | S].
        -- destruct L as [_ L]. discriminate L. lia.
        -- right. apply Z.ltb_ge. lia.
Qed.

End ComparisonFacts.

(** X2. The derived comparisons of [Seq].  Unless the two sequence
    numbers are exactly half the modulus (128) apart, [a > b] is [b < a],
    [a >= b] is [b <= a], and exactly one of [a < b], [a == b], [a > b]
    holds.  Exactly 128 apart, [a > b] and [b > a] both hold, [a >= b]
    and [b >= a] both hold, and neither [a <= b] nor [b <= a] does. *)
Theorem seq_derived_comparisons (x y : Z) :
  (forward_distance (Seq.new x) (Seq.new y) <> Seq.HALF ->
   Seq.gt (Seq.new x) (Seq.new y) = Seq.lt (Seq.new y) (Seq.new x)
   /\ Seq.ge (Seq.new x) (Seq.new y) = Seq.le (Seq.new y) (Seq.new x)
   /\ exactly_one (Seq.lt (Seq.new x) (Seq.new y))
                  (Seq.eq (Seq.new x) (Seq.new y))
                  (Seq.gt (Seq.new x) (Seq.new y)))
  /\ (forward_distance (Seq.new x) (Seq.new y) = Seq.HALF ->
      Seq.gt (Seq.new x) (Seq.new y) = true
      /\ Seq.gt (Seq.new y) (Seq.new x) = true
      /\ Seq.ge (Seq.new x) (Seq.new y) = true
      /\ Seq.ge (Seq.new y) (Seq.new x) = true
      /\ Seq.le (Seq.new x) (Seq.new y) = false
      /\ Seq.le (Seq.new y) (Seq.new x) = false
      /\ Seq.ne (Seq.new x) (Seq.new y) = true).
Proof.
  destruct (comparisons_by_distance x y) as (R & B & E & L).
  destruct (comparisons_by_distance y x) as (_ & _ & E' & L').
  cbv zeta in *. rewrite B in E', L'.
  unfold Seq.gt, Seq.ge, Seq.le, Seq.ne, exactly_one.
  rewrite E, L, E', L', HALF_val.
  generalize dependent (forward_distance (Seq.new x) (Seq.new y)).
  intros d R _.
  destruct (Z.eqb_spec d 0) as [-> | NZ].
  - cbn. split; intros; [repeat split; auto | lia].
  - destruct (Z.ltb_spec 0 d); [| lia].
    destruct (Z.eqb_spec (256 - d) 0); [lia |].
    destruct (Z.ltb_spec 0 (256 - d)); [| lia].
    destruct (Z.ltb_spec d 128); destruct (Z.ltb_spec (256 - d) 128);
      cbn; split; intros; try lia; repeat split; auto.
Qed.

(** X3. [Seq.__lt__] is irreflexive and asymmetric on sequence numbers,
    and transitive as long as the two steps together stay below half the
    modulus: from [a < b], [b < c] and a forward distance from [a] to [b]
    plus from [b] to [c] below 128, [a < c] follows.  Without that bound
    it need not: [Seq(0) < Seq(100) < Seq(200)] and not
    [Seq(0) < Seq(200)]. *)
Theorem seq_lt_order_in_half (x y z : Z) :
  Seq.lt (Seq.new x) (Seq.new x) = false
  /\ (Seq.lt (Seq.new x) (Seq.new y) = true ->
      Seq.lt (Seq.new y) (Seq.new x) = false)
  /\ (Seq.lt (Seq.new x) (Seq.new y) = true ->
      Seq.lt (Seq.new y) (Seq.new z) = true ->
      forward_distance (Seq.new x) (Seq.new y)
      + forward_distance (Seq.new y) (Seq.new z) < Seq.HALF ->
      Seq.lt (Seq.new x) (Seq.new z) = true)
  /\ (Seq.lt (Seq.new 0) (Seq.new 100) = true
      /\ Seq.lt (Seq.new 100) (Seq.new 200) = true
      /\ Seq.lt (Seq.new 0) (Seq.new 200) = false).
Proof.
  destruct (comparisons_by_distance x x) as (_ & _ & _ & Lxx).
  destruct (comparisons_by_distance x y) as (Rxy & Byx & _ & Lxy).
  destruct (comparisons_by_distance y x) as (_ & _ & _ & Lyx).
  destruct (comparisons_by_distance y z) as (Ryz & _ & _ & Lyz).
  destruct (comparisons_by_distance x z) as (Rxz & _ & _ & Lxz).
  cbv zeta in *. rewrite Lxx, Lxy, Lyx, Lyz, Lxz, Byx, HALF_val.
  assert (Dxx : forward_distance (Seq.new x) (Seq.new x) = 0)
    by (rewrite forward_distance_new, Z.sub_diag; reflexivity).
  assert (T : forward_distance (Seq.new x) (Seq.new z)
              = (forward_distance (Seq.new x) (Seq.new y)
                 + forward_distance (Seq.new y) (Seq.new z)) mod 256).
  { rewrite !forward_distance_new, <- Zplus_mod. f_equal. lia. }
  rewrite Dxx, T.
  generalize dependent (forward_distance (Seq.new x) (Seq.new y)).
  intros d1 _ R1.
  generalize dependent (forward_distance (Seq.new y) (Seq.new z)).
  intros d2 R2 _.
  split; [reflexivity |]. split; [| split; [| repeat split]].
  - rewrite !andb_true_iff, !Z.ltb_lt. intros [P Q].
    destruct (Z.eqb_spec d1 0); [lia |].
    apply andb_false_iff. right. apply Z.ltb_ge. lia.
  - rewrite !andb_true_iff, !Z.ltb_lt. intros [P Q] [P' Q'] S.
    rewrite Z.mod_small by lia. lia.
Qed.

(** ** Ranges of sequence numbers *)

Section SrangeWindowFacts.

Lemma forward_distance_range (a b : Seq.t) :
  0 <= forward_distance a b < 256.
Proof.
  unfold forward_distance. rewrite MOD_val. apply Z.mod_pos_bound. lia.
Qed.

(** The values [srange] yields between two sequence numbers. *)
Lemma srange_closed_form (x y : Z) :
  srange (Seq.new x) (Seq.new y)
  = Some (map (fun i => Seq.new (x + Z.of_nat i))
              (List.seq 0 (Z.to_nat (forward_distance (Seq.new x)
                                       (Seq.new y))))).
Proof.
  pose proof (new_wf x) as Wx. pose proof (new_wf y) as Wy.
  pose proof (forward_distance_range (Seq.new x) (Seq.new y)) as R.
  unfold srange. rewrite new_seq_id by assumption.
  rewrite <- (add_forward_distance (Seq.new x) (Seq.new y) Wx Wy) at 1.
  replace (forward_distance (Seq.new x) (Seq.new y))
    with (Z.of_nat (Z.to_nat (forward_distance (Seq.new x) (Seq.new y))))
    at 1 by lia.
  rewrite srange_loop_run; try assumption.
  - f_equal. apply map_ext. intros i. apply add_new.
  - lia.
  - rewrite MOD_val. cbn. lia.
Qed.

Lemma forward_distance_sum (x y z : Z) :
  forward_distance (Seq.new x) (Seq.new z)
  = (forward_distance (Seq.new x) (Seq.new y)
     + forward_distance (Seq.new y) (Seq.new z)) mod 256.
Proof.
  rewrite !forward_distance_new, <- Zplus_mod. f_equal. lia.
Qed.

Lemma new_congr (a b : Z) : a mod 256 = b mod 256 -> Seq.new a = Seq.new b.
Proof. intros E. unfold Seq.new. rewrite MOD_val, E. reflexivity. Qed.

End SrangeWindowFacts.

(** X4. What [srange(a, b)] yields, as a window: no value twice; a
    sequence number is yielded exactly when it lies fewer steps ahead of
    [a] than [b] does; and when the way from [a] over [b] to [c] is
    shorter than a full turn, [srange(a, c)] is [srange(a, b)] followed by
    [srange(b, c)]. *)
Theorem srange_window (x y z : Z) :
  exists l : list Seq.t,
    srange (Seq.new x) (Seq.new y) = Some l
    /\ NoDup l
    /\ (forall e : Seq.t,
           In e l
           <-> Seq.wf e
               /\ forward_distance (Seq.new x) e
                  < forward_distance (Seq.new x) (Seq.new y))
    /\ (forward_distance (Seq.new x) (Seq.new y)
        + forward_distance (Seq.new y) (Seq.new z) < Seq.MOD ->
        exists l2 : list Seq.t,
          srange (Seq.new y) (Seq.new z) = Some l2
          /\ srange (Seq.new x) (Seq.new z) = Some (l ++ l2)).
Proof.
  pose proof (new_wf x) as Wx.
  pose proof (forward_distance_range (Seq.new x) (Seq.new y)) as R.
  eexists. split; [apply srange_closed_form |].
  split; [| split].
  - apply NoDup_map_NoDup_ForallPairs; [| apply seq_NoDup].
    intros i j I J E. apply in_seq in I, J.
    unfold Seq.new in E. injection E as E. rewrite MOD_val in E.
    assert (D : (x + Z.of_nat i - (x + Z.of_nat j)) mod 256 = 0)
      by (rewrite Zminus_mod, E, Z.sub_diag; reflexivity).
    replace (x + Z.of_nat i - (x + Z.of_nat j))
      with (Z.of_nat i - Z.of_nat j) in D by lia.
    destruct (Z_lt_ge_dec (Z.of_nat i) (Z.of_nat j)) as [Lt | Ge].
    + replace (Z.of_nat i - Z.of_nat j)
        with (Z.of_nat i - Z.of_nat j + 256 + (-1) * 256) in D by lia.
      rewrite Z.mod_add, Z.mod_small in D by lia. lia.
    + rewrite Z.mod_small in D by lia. lia.
  - intros e. rewrite in_map_iff. split.
    + intros (i & <- & I). apply in_seq in I. split; [apply new_wf |].
      rewrite forward_distance_new.
      replace (x + Z.of_nat i - x) with (Z.of_nat i) by lia.
      rewrite Z.mod_small by lia. lia.
    + intros [We L].
      pose proof (forward_distance_range (Seq.new x) e) as Re.
      exists (Z.to_nat (forward_distance (Seq.new x) e)). split.
      * rewrite Z2Nat.id by lia. rewrite <- add_new.
        apply add_forward_distance; assumption.
      * apply in_seq. lia.
  - rewrite MOD_val. intros S.
    pose proof (forward_distance_range (Seq.new y) (Seq.new z)) as R2.
    eexists. split; [apply srange_closed_form |].
    rewrite srange_closed_form. f_equal.
    rewrite (forward_distance_sum x y z), Z.mod_small by lia.
    rewrite Z2Nat.inj_add, seq_app, map_app by lia. f_equal.
    cbn [Nat.add].
    pose proof (forward_distance_new x y) as D.
    assert (G : forall n1 k,
               map (fun i => Seq.new (x + Z.of_nat i))
                 (List.seq (Z.to_nat (forward_distance (Seq.new x)
                                        (Seq.new y)) + k) n1)
               = map (fun i => Seq.new (y + Z.of_nat i)) (List.seq k n1)).
    { induction n1 as [| n1 IH]; intros k; cbn [List.seq map];
        [reflexivity |].
      f_equal.
      - apply new_congr. rewrite Nat2Z.inj_add, Z2Nat.id by lia.
        rewrite D. Z.div_mod_to_equations. lia.
      - rewrite <- IH. f_equal. f_equal. lia. }
    rewrite <- G, Nat.add_0_r. reflexivity.
Qed.

(** ** Reading a packet back *)

Section DecodeFacts.

Lemma to_byte_rejects (n : Z) :
  ~ 0 <= n < 256 -> to_byte n = Raise ValueError.
Proof.
  intros H. unfold to_byte.
  destruct ((0 <=? n) && (n <? 256)) eqn:R; [| reflexivity].
  apply andb_true_iff in R. destruct R as [R1 R2].
  apply Z.leb_le in R1. apply Z.ltb_lt in R2. lia.
Qed.

(** A pdu of fewer than two bytes does not pass the check. *)
Lemma short_pdu_corrupt (raw : list byte) :
  (length raw < 2)%nat -> corrupt (mkPacket raw) = true.
Proof.
  intros L. destruct (corrupt (mkPacket raw)) eqn:C; [reflexivity |].
  apply corrupt_false_iff in C. cbn [pdu] in C. destruct C as [P M].
  destruct raw as [| b [| b' raw]]; cbn [length] in L; try lia;
    cbn [sum_words] in P, M; [lia |].
  pose proof (byte_val_range b). rewrite Z.add_0_l in *.
  rewrite Z.mod_small in M by lia. lia.
Qed.

End DecodeFacts.

(** X5. Reading back a packet built by [Packet(type, seq, data)]: the
    [type] attribute is the type given, [seq] is the sequence number given
    (as a [Seq]), [data] and [extract()] are the data given, and the pdu
    is four bytes longer than the data.  The [checksum] attribute is the
    slice [pdu[2:3]]: one byte, the high byte of the checksum of the pdu
    with a cleared checksum field; the low byte is [pdu[3]]. *)
Theorem packet_fields_round_trip
  (type : Z) (sq : seq_arg) (data : list byte) (p : Packet) :
  Packet_new type sq data = Ok p ->
  getattr p "type"%string = Ok (AType type)
  /\ getattr p "seq"%string = Ok (ASeq (Seq.new (int_of sq)))
  /\ getattr p "data"%string = Ok (ABytes data)
  /\ extract p = data
  /\ length (pdu p) = (4 + length data)%nat
  /\ exists hi lo : byte,
       getattr p "checksum"%string = Ok (ABytes [hi])
       /\ nth_error (pdu p) 3 = Some lo
       /\ byte_val hi * 256 + byte_val lo
          = ichecksum (mkPacket (firstn 2 (pdu p) ++ [x00; x00] ++ data)) 0.
Proof.
  intros E.
  destruct (Packet_new_accepts _ _ _ _ E) as [Ht Hs].
  destruct (Packet_new_ok type sq data Ht Hs)
    as (t & s & hi & lo & E' & Vt & Vs & C).
  rewrite E in E'. injection E' as ->.
  unfold getattr, extract. cbn. rewrite Vt, Vs.
  repeat split. exists hi, lo. repeat split. exact C.
Qed.

Lemma packet_fields_round_trip_witness :
  Packet_new (PType.value PType.FIN) (SeqObj (Seq.new 260)) []
  = Ok (mkPacket [x04; x04; xfb; xfb])
  /\ getattr (mkPacket [x04; x04; xfb; xfb]) "seq"%string
     = Ok (ASeq (Seq.new (int_of (SeqObj (Seq.new 260))))).
Proof.
  assert (E : Packet_new (PType.value PType.FIN) (SeqObj (Seq.new 260)) []
              = Ok (mkPacket [x04; x04; xfb; xfb]))
    by (vm_compute; reflexivity).
  refine (conj E _).
  exact (proj1 (proj2 (packet_fields_round_trip _ _ _ _ E))).
Defined.

(** X6. [Packet(type, seq, data)] raises [ValueError] exactly when the
    type or [int(seq)] is outside [range(256)], and returns a packet
    otherwise, whatever the data.  A [Seq] always fits; the same number
    given as an [int] need not: [Packet(DATA, 256)] raises, and
    [Packet(DATA, Seq(256))] is the packet with sequence number 0. *)
Theorem packet_new_value_error (type : Z) (sq : seq_arg) (data : list byte) :
  ((exists p, Packet_new type sq data = Ok p)
   <-> 0 <= type < 256 /\ 0 <= int_of sq < 256)
  /\ (Packet_new type sq data = Raise ValueError
      <-> ~ (0 <= type < 256 /\ 0 <= int_of sq < 256))
  /\ (forall n : Z,
         0 <= type < 256 ->
         exists p, Packet_new type (SeqObj (Seq.new n)) data = Ok p)
  /\ Packet_new (PType.value PType.DATA) (SeqInt 256) data = Raise ValueError
  /\ Packet_new (PType.value PType.DATA) (SeqObj (Seq.new 256)) data
     = Packet_new (PType.value PType.DATA) (SeqInt 0) data.
Proof.
  assert (A : forall ty q,
             0 <= ty < 256 /\ 0 <= int_of q < 256 ->
             exists p, Packet_new ty q data = Ok p).
  { intros ty q [Ht Hs].
    destruct (Packet_new_ok ty q data Ht Hs) as (t & s & hi & lo & E & _).
    eexists. exact E. }
  assert (B : ~ (0 <= type < 256 /\ 0 <= int_of sq < 256) ->
              Packet_new type sq data = Raise ValueError).
  { intros N. unfold Packet_new.
    destruct (Z_le_dec 0 type) as [T1 |];
      [destruct (Z_lt_dec type 256) as [T2 |] |];
      try (rewrite (to_byte_rejects type) by lia; reflexivity).
    destruct (to_byte_ok type (conj T1 T2)) as (t & Et & _).
    rewrite Et. cbn [bind].
    rewrite (to_byte_rejects (int_of sq)) by lia. reflexivity. }
  split; [| split; [| split; [| split]]].
  - split; [| apply A]. intros [p E]. eapply Packet_new_accepts, E.
  - split; [| exact B]. intros E N. destruct (A _ _ N) as [p E'].
    congruence.
  - intros n Ht. apply A. split; [exact Ht |].
    pose proof (new_wf n) as W. unfold Seq.wf in W. rewrite MOD_val in W.
    exact W.
  - unfold Packet_new. cbn [PType.value int_of].
    replace (to_byte 1) with (Ok x01) by reflexivity. cbn [bind].
    reflexivity.
  - reflexivity.
Qed.

(** X7. The four fields of any packet, also one made from raw bytes:
    [type] raises [IndexError] exactly on the empty pdu and [seq]
    exactly on a pdu of fewer than two bytes; [checksum] and [data] never
    raise, [data] being what [extract()] returns and [checksum] at most
    one byte.  A pdu of fewer than two bytes never passes [corrupt()], so
    a packet that passes it has a [type] and a [seq]. *)
Theorem getattr_edge_cases (p : Packet) :
  (getattr p "type"%string = Raise IndexError <-> pdu p = [])
  /\ (getattr p "seq"%string = Raise IndexError <-> (length (pdu p) < 2)%nat)
  /\ getattr p "data"%string = Ok (ABytes (extract p))
  /\ (exists b, getattr p "checksum"%string = Ok (ABytes b)
                /\ (length b <= 1)%nat)
  /\ ((length (pdu p) < 2)%nat -> corrupt p = true)
  /\ (corrupt p = false ->
      exists (flags : Z) (s : Seq.t),
        getattr p "type"%string = Ok (AType flags)
        /\ getattr p "seq"%string = Ok (ASeq s)
        /\ packet_type p = Some flags /\ packet_seq p = Some s).
Proof.
  destruct p as [raw]. cbn [pdu].
  split; [| split; [| split; [| split; [| split]]]].
  - unfold getattr. cbn. destruct raw; split; congruence.
  - unfold getattr. cbn. destruct raw as [| b [| b' raw]]; cbn;
      split; intros; try discriminate; try lia; reflexivity.
  - reflexivity.
  - eexists. split; [reflexivity |]. rewrite length_firstn. lia.
  - apply short_pdu_corrupt.
  - intros C. destruct raw as [| b [| b' raw]].
    + rewrite short_pdu_corrupt in C by (cbn; lia). discriminate.
    + rewrite short_pdu_corrupt in C by (cbn; lia). discriminate.
    + eexists. eexists. repeat split.
Qed.

(** X8. The pass of the sender's [fsm] loop after an event: it raises on
    the two timeouts the sender does not know, [TO_Closing] and
    [TO_DelayedACK] ([self.error] does not exist: [AttributeError]), and
    on nothing else; on a packet arrival, a retransmission timeout or an
    application request it ends normally for every state and every
    datagram, however short or damaged, with the window as it was. *)
Theorem sender_fsm_body_raises (s : GBNsend.t) (event : Ev) (dgram : list byte) :
  match event with
  | TO_Closing | TO_DelayedACK =>
      GBNsend.fsm_body s event dgram = Raise AttributeError
  | _ =>
      exists s', GBNsend.fsm_body s event dgram = Ok s' /\ same_window s s'
  end.
Proof.
  assert (T : forall pkt, corrupt pkt = false -> packet_type pkt <> None).
  { intros [raw] C. destruct raw as [| b raw]; [| discriminate].
    rewrite short_pdu_corrupt in C by (cbn; lia). discriminate. }
  destruct event; try reflexivity.
  - destruct (GBNsend.fsm_body s Packet_Arrival dgram) as [s' | e] eqn:F.
    + exists s'. split; [reflexivity |]. eapply fsm_body_frame, F.
    + exfalso. unfold GBNsend.fsm_body in F.
      destruct (GBN.rdt_rcv (GBNsend.gbn s) dgram) as [g pkt].
      cbn [bind GBNsend.state GBNsend.set_gbn] in F.
      destruct (GBNsend.state s); try discriminate.
      destruct (corrupt pkt) eqn:C; cbn [negb] in F; [discriminate |].
      specialize (T pkt C).
      destruct (packet_type pkt); [| contradiction].
      repeat match type of F with
             | context [if ?c then _ else _] => destruct c
             end; discriminate.
  - destruct (GBNsend.fsm_body s App_Request dgram) as [s' | e] eqn:F.
    + exists s'. split; [reflexivity |]. eapply fsm_body_frame, F.
    + exfalso. unfold GBNsend.fsm_body in F.
      cbn [bind GBNsend.state GBNsend.set_gbn] in F.
      destruct (GBNsend.state s); discriminate.
  - destruct (GBNsend.fsm_body s TO_Retransmit dgram) as [s' | e] eqn:F.
    + exists s'. split; [reflexivity |]. eapply fsm_body_frame, F.
    + exfalso. unfold GBNsend.fsm_body in F. cbn [bind] in F.
      destruct (GBNsend.state s); discriminate.
Qed.

(** ** Runs of writes and deletes on a packet buffer *)

Section BufferRunFacts.

Import PacketBuffer.

Lemma dict_get_fresh_cells (len : nat) :
  forall (start : nat) (k : Z),
    Z.of_nat start <= k < Z.of_nat start + Z.of_nat len ->
    dict_get Z.eqb
      (map (fun i => (Z.of_nat i, @None Packet)) (List.seq start len)) k
    = Some None.
Proof.
  induction len as [| len IH]; intros start k R; [lia |].
  cbn [List.seq map dict_get].
  destruct (Z.eqb_spec (Z.of_nat start) k); [reflexivity |].
  apply IH. lia.
Qed.

Lemma getitem_new (bufsize k : Z) :
  getitem (new bufsize) (PySeq (Seq.new k)) = Ok None.
Proof.
  unfold getitem, new. cbn [check_key bind buf].
  pose proof (new_wf k) as W. unfold Seq.wf in W. rewrite MOD_val in W.
  rewrite dict_get_fresh_cells; [reflexivity |].
  rewrite MOD_val, Z2Nat.id by lia. change (Z.of_nat 0) with 0. lia.
Qed.

Lemma new_same_cell (n k : Z) :
  Seq.seq (Seq.new n) = Seq.seq (Seq.new k) <-> n mod 256 = k mod 256.
Proof. unfold Seq.new. cbn [Seq.seq]. rewrite MOD_val. reflexivity. Qed.

(** One write or delete: the cell written reads back, the others and the
    keys of the dict stay. *)
Lemma write_cell (b : t) (n : Z) (cell : option Packet) (c : Z -> option Packet) :
  (forall k, getitem b (PySeq (Seq.new k)) = Ok (c k)) ->
  let b' := {| buf := dict_set Z.eqb (buf b) (Seq.seq (Seq.new n)) cell;
               base := base b;
               bufsize := bufsize b |} in
  (forall k, getitem b' (PySeq (Seq.new k))
             = Ok (if n mod 256 =? k mod 256 then cell else c k))
  /\ map fst (buf b') = map fst (buf b).
Proof.
  intros I. cbv zeta. split.
  - intros k. unfold getitem. cbn [check_key bind buf].
    destruct (Z.eqb_spec (n mod 256) (k mod 256)) as [E | NE].
    + apply new_same_cell in E. rewrite <- E.
      rewrite (dict_get_set_same Z.eqb Z.eqb_spec). reflexivity.
    + rewrite (dict_get_set_other Z.eqb Z.eqb_spec).
      * exact (I k).
      * intros E. apply NE. symmetry. apply new_same_cell. exact E.
  - cbn [buf]. rewrite (dict_set_keys Z.eqb Z.eqb_spec). unfold dict_mem.
    specialize (I n). unfold getitem in I. cbn [check_key bind] in I.
    destruct (dict_get Z.eqb (buf b) (Seq.seq (Seq.new n)));
      [reflexivity | discriminate].
Qed.

Lemma run_ops_cells (ops : list buf_op) :
  forall (b : t) (c : Z -> option Packet),
    (forall k, getitem b (PySeq (Seq.new k)) = Ok (c k)) ->
    exists b',
      run_ops b ops = Ok b'
      /\ bufsize b' = bufsize b
      /\ map fst (buf b') = map fst (buf b)
      /\ forall k, getitem b' (PySeq (Seq.new k))
                   = Ok (last_write ops k (c k)).
Proof.
  induction ops as [| [n p | n] ops IH]; intros b c I; cbn [run_ops].
  - exists b. auto.
  - unfold setitem. cbn [check_key bind].
    destruct (write_cell b n (Some p) c I) as [G K]. cbv zeta in G, K.
    destruct (IH _ _ G) as (b' & R & Z1 & K1 & G1).
    exists b'. split; [exact R |]. split; [exact Z1 |].
    split; [congruence |]. intros k. cbn [last_write]. apply G1.
  - unfold delitem. cbn [check_key bind].
    destruct (write_cell b n None c I) as [G K]. cbv zeta in G, K.
    destruct (IH _ _ G) as (b' & R & Z1 & K1 & G1).
    exists b'. split; [exact R |]. split; [exact Z1 |].
    split; [congruence |]. intros k. cbn [last_write]. apply G1.
Qed.

End BufferRunFacts.

(** X9. A packet buffer created with any [bufsize] has its 256 cells
    empty, and after any run of writes [b[Seq(n)] = p] and deletes
    [del b[Seq(n)]] no operation has raised, the dict still has the keys
    it was created with, in their order, and reading [b[Seq(k)]] returns,
    for every [k], what the last write or delete at that cell left:
    the packet last written, [None] after a delete or when the cell was
    never written. *)
Theorem packet_buffer_runs (bufsize : Z) (ops : list buf_op) :
  (forall k : Z,
      PacketBuffer.getitem (PacketBuffer.new bufsize) (PySeq (Seq.new k))
      = Ok None)
  /\ exists b : PacketBuffer.t,
       run_ops (PacketBuffer.new bufsize) ops = Ok b
       /\ PacketBuffer.bufsize b = bufsize
       /\ map fst (PacketBuffer.buf b)
          = map Z.of_nat (List.seq 0 256)
       /\ forall k : Z,
            PacketBuffer.getitem b (PySeq (Seq.new k))
            = Ok (last_write ops k None).
Proof.
  split; [apply getitem_new |].
  destruct (run_ops_cells ops (PacketBuffer.new bufsize) (fun _ => None)
              (getitem_new bufsize)) as (b & R & Z1 & K & G).
  exists b. split; [exact R |]. split; [exact Z1 |]. split; [| exact G].
  rewrite K. unfold PacketBuffer.new. cbn [PacketBuffer.buf].
  rewrite map_map. cbn [fst]. reflexivity.
Qed.

(** ** Starting, stopping and polling timers *)

Section DictDeleteFacts.

Context {K V : Type} (eqb : K -> K -> bool).
Hypothesis eqb_spec : forall x y : K, reflect (x = y) (eqb x y).

Lemma dict_get_del_other (d : list (K * V)) (k k0 : K) :
  k0 <> k -> dict_get eqb (dict_del eqb d k) k0 = dict_get eqb d k0.
Proof.
  intros NE. induction d as [| [k' v'] d IH]; cbn [dict_del dict_get];
    [reflexivity |].
  destruct (eqb_spec k' k) as [-> | N]; cbn [dict_get].
  - destruct (eqb_spec k k0); congruence.
  - rewrite IH. reflexivity.
Qed.

Lemma dict_get_In (d : list (K * V)) (k : K) (v : V) :
  dict_get eqb d k = Some v -> In (k, v) d.
Proof.
  induction d as [| [k' v'] d IH]; cbn [dict_get In]; [discriminate |].
  destruct (eqb_spec k' k) as [-> | N]; [| auto].
  intros E; injection E as ->. auto.
Qed.

Lemma dict_In_get (d : list (K * V)) (k : K) (v : V) :
  NoDup (map fst d) -> In (k, v) d -> dict_get eqb d k = Some v.
Proof.
  induction d as [| [k' v'] d IH]; cbn [map fst dict_get In]; [tauto |].
  intros D [E | I].
  - injection E as -> ->. destruct (eqb_spec k k); congruence.
  - inversion D as [| ? ? N D']; subst.
    destruct (eqb_spec k' k) as [-> | _]; [| exact (IH D' I)].
    exfalso. apply N. apply in_map_iff. exists (k, v). auto.
Qed.

Lemma dict_get_del_same (d : list (K * V)) (k : K) :
  NoDup (map fst d) -> dict_get eqb (dict_del eqb d k) k = None.
Proof.
  induction d as [| [k' v'] d IH]; cbn [map fst dict_del dict_get];
    [reflexivity |].
  intros D. inversion D as [| ? ? N D']; subst.
  destruct (eqb_spec k' k) as [-> | NE]; cbn [dict_get].
  - destruct (dict_get eqb d k) as [v |] eqn:G; [| reflexivity].
    exfalso. apply N. apply dict_get_In in G.
    apply in_map_iff. exists (k, v). auto.
  - destruct (eqb_spec k' k); [contradiction | exact (IH D')].
Qed.

Lemma dict_del_In (d : list (K * V)) (k : K) (x : K * V) :
  In x (dict_del eqb d k) -> In x d.
Proof.
  induction d as [| [k' v'] d IH]; cbn [dict_del In]; [tauto |].
  destruct (eqb_spec k' k); cbn [In]; tauto.
Qed.

End DictDeleteFacts.

(** X10. Starting and stopping timers.  [start_timer(key)] raises
    [KeyError] exactly when the kind has no interval, which with the
    intervals of the module are the two events that are not timeouts;
    otherwise the kind is pending afterwards, once, at the place it had
    in the registry or at its end, whether or not it was pending before,
    and every other kind is as it was.  In a registry that is a dict,
    stopping the kind afterwards leaves it not pending and the other
    kinds as they were, and stopping a kind that is not pending changes
    nothing. *)
Theorem timer_start_stop (tm : Timer.t) (key : Ev) (clock : Q) :
  NoDup (map fst (Timer.times tm)) ->
  (Timer.start_timer tm key clock = Raise KeyError
   <-> dict_get Ev_eqb (Timer.intv tm) key = None)
  /\ (dict_get Ev_eqb TO_interval key = None
      <-> key = Packet_Arrival \/ key = App_Request)
  /\ (dict_get Ev_eqb (Timer.intv tm) key <> None ->
      exists tm' : Timer.t,
        Timer.start_timer tm key clock = Ok tm'
        /\ Timer.intv tm' = Timer.intv tm
        /\ NoDup (map fst (Timer.times tm'))
        /\ dict_mem Ev_eqb (Timer.times tm') key = true
        /\ map fst (Timer.times tm')
           = (if dict_mem Ev_eqb (Timer.times tm) key
              then map fst (Timer.times tm)
              else map fst (Timer.times tm) ++ [key])
        /\ (forall k, k <> key ->
                      dict_get Ev_eqb (Timer.times tm') k
                      = dict_get Ev_eqb (Timer.times tm) k)
        /\ dict_mem Ev_eqb (Timer.times (Timer.stop_timer tm' key)) key
           = false
        /\ (forall k, k <> key ->
                      dict_get Ev_eqb
                        (Timer.times (Timer.stop_timer tm' key)) k
                      = dict_get Ev_eqb (Timer.times tm) k))
  /\ (dict_get Ev_eqb (Timer.times tm) key = None ->
      Timer.stop_timer tm key = tm).
Proof.
  intros D. split; [| split; [| split]].
  - unfold Timer.start_timer.
    destruct (dict_get Ev_eqb (Timer.intv tm) key); split; congruence.
  - destruct key; cbn; split; intros H; try discriminate; auto;
      destruct H; discriminate.
  - intros I. unfold Timer.start_timer.
    destruct (dict_get Ev_eqb (Timer.intv tm) key) as [d |];
      [| contradiction].
    eexists. split; [reflexivity |]. cbn [Timer.intv Timer.times].
    assert (D' : NoDup (map fst (dict_set Ev_eqb (Timer.times tm) key
                                   (clock + d)%Q)))
      by (apply (dict_set_nodup Ev_eqb Ev_eqb_spec), D).
    assert (G : dict_get Ev_eqb
                  (dict_set Ev_eqb (Timer.times tm) key (clock + d)%Q) key
                = Some (clock + d)%Q)
      by apply (dict_get_set_same Ev_eqb Ev_eqb_spec).
    split; [reflexivity |]. split; [exact D' |].
    split; [unfold dict_mem; rewrite G; reflexivity |].
    split; [apply (dict_set_keys Ev_eqb Ev_eqb_spec) |].
    split; [| split].
    + intros k NE. apply (dict_get_set_other Ev_eqb Ev_eqb_spec), NE.
    + unfold Timer.stop_timer. unfold dict_mem at 2. cbn [Timer.times].
      rewrite G. cbn [Timer.times]. unfold dict_mem.
      rewrite (dict_get_del_same Ev_eqb Ev_eqb_spec) by exact D'.
      reflexivity.
    + intros k NE. unfold Timer.stop_timer, dict_mem. cbn [Timer.times].
      rewrite G. cbn [Timer.times].
      rewrite (dict_get_del_other Ev_eqb Ev_eqb_spec) by exact NE.
      apply (dict_get_set_other Ev_eqb Ev_eqb_spec), NE.
  - intros G. unfold Timer.stop_timer, dict_mem. rewrite G. reflexivity.
Qed.

Lemma timer_start_stop_witness :
  NoDup (map fst (Timer.times two_timers))
  /\ (Timer.start_timer two_timers App_Request 0%Q = Raise KeyError
      <-> dict_get Ev_eqb (Timer.intv two_timers) App_Request = None).
Proof.
  assert (D : NoDup (map fst (Timer.times two_timers))).
  { cbn. repeat constructor; cbn; intuition discriminate. }
  refine (conj D _).
  exact (proj1 (timer_start_stop two_timers App_Request 0%Q D)).
Defined.

(** X12. Polling again.  In a registry that is a dict, when one
    [check_timeout] returns a kind and the next one, at the same or a
    later clock reading, returns a kind too, the two kinds differ, both
    were pending in the registry the first poll saw, each expired by the
    time of its poll, and the first expires no later than the second:
    due timers come out one per poll, earliest first, none twice. *)
Theorem timer_polls_in_order
  (tm tm1 tm2 : Timer.t) (k1 k2 : Ev) (now1 now2 : Q) :
  NoDup (map fst (Timer.times tm)) ->
  Timer.check_timeout tm now1 = (Some k1, tm1) ->
  Timer.check_timeout tm1 now2 = (Some k2, tm2) ->
  k1 <> k2
  /\ exists t1 t2 : Q,
       dict_get Ev_eqb (Timer.times tm) k1 = Some t1
       /\ dict_get Ev_eqb (Timer.times tm) k2 = Some t2
       /\ (t1 <= now1)%Q /\ (t2 <= now2)%Q /\ (t1 <= t2)%Q
       /\ dict_get Ev_eqb (Timer.times tm2) k1 = None
       /\ dict_get Ev_eqb (Timer.times tm2) k2 = None.
Proof.
  intros D C1 C2. unfold Timer.check_timeout in C1, C2. cbv zeta in C1, C2.
  pose proof (find_expired (Timer.times tm) now1) as F1.
  pose proof (find_expired (Timer.times tm1) now2) as F2.
  destruct (find _ (Timer.sorted_by_expiry (Timer.times tm)))
    as [[k t1] |]; [| discriminate].
  destruct (find _ (Timer.sorted_by_expiry (Timer.times tm1)))
    as [[k' t2] |]; [| discriminate].
  injection C1 as -> <-. injection C2 as -> <-.
  cbn [Timer.times Timer.intv snd] in *.
  destruct F1 as (I1 & L1 & M1). destruct F2 as (I2 & L2 & M2).
  pose proof (dict_del_nodup Ev_eqb Ev_eqb_spec _ k1 D) as D1.
  pose proof (dict_del_In Ev_eqb Ev_eqb_spec _ _ _ I2) as I2'.
  assert (G1 : dict_get Ev_eqb (dict_del Ev_eqb (Timer.times tm) k1) k1
               = None)
    by apply (dict_get_del_same Ev_eqb Ev_eqb_spec), D.
  assert (NE : k1 <> k2).
  { intros ->.
    rewrite (dict_In_get Ev_eqb Ev_eqb_spec _ _ _ D1 I2) in G1.
    discriminate. }
  split; [exact NE |]. exists t1, t2.
  split; [apply (dict_In_get Ev_eqb Ev_eqb_spec), I1; exact D |].
  split; [apply (dict_In_get Ev_eqb Ev_eqb_spec), I2'; exact D |].
  split; [exact L1 |]. split; [exact L2 |].
  split; [apply (M1 (k2, t2)), I2' |].
  split.
  - rewrite (dict_get_del_other Ev_eqb Ev_eqb_spec) by exact NE. exact G1.
  - apply (dict_get_del_same Ev_eqb Ev_eqb_spec), D1.
Qed.

Lemma timer_polls_in_order_witness :
  NoDup (map fst (Timer.times two_timers))
  /\ Timer.check_timeout two_timers 2%Q
     = (Some TO_Retransmit, Timer.mk [(TO_Closing, 1%Q)] TO_interval)
  /\ Timer.check_timeout (Timer.mk [(TO_Closing, 1%Q)] TO_interval) 2%Q
     = (Some TO_Closing, Timer.mk [] TO_interval)
  /\ TO_Retransmit <> TO_Closing.
Proof.
  assert (D : NoDup (map fst (Timer.times two_timers))).
  { cbn. repeat constructor; cbn; intuition discriminate. }
  assert (C1 : Timer.check_timeout two_timers 2%Q
               = (Some TO_Retransmit,
                  Timer.mk [(TO_Closing, 1%Q)] TO_interval))
    by reflexivity.
  assert (C2 : Timer.check_timeout
                 (Timer.mk [(TO_Closing, 1%Q)] TO_interval) 2%Q
               = (Some TO_Closing, Timer.mk [] TO_interval))
    by reflexivity.
  refine (conj D (conj C1 (conj C2 _))).
  exact (proj1 (timer_polls_in_order _ _ _ _ _ _ _ D C1 C2)).
Defined.

(** ** Sending and receiving over the simulated channel *)

Section ChannelFacts.

(** The three ways of one [udt_send]. *)
Lemma udt_send_cases (g : GBN.t) (packet : Packet) (rnd : GBN.draws) :
  let st := GBN.stats g in
  let g' := GBN.udt_send g packet rnd in
  GBN.down_queue g' = GBN.down_queue g
  /\ GBN.up_queue g' = GBN.up_queue g
  /\ GBN.timer g' = GBN.timer g
  /\ GBN.bound (GBN.sock g') = GBN.bound (GBN.sock g)
  /\ GBN.peer (GBN.sock g') = GBN.peer (GBN.sock g)
  /\ GBN.sent_dgrams (GBN.sock g')
     = GBN.sent_dgrams (GBN.sock g)
       ++ (if dropped rnd then []
           else if garbled rnd
                then [xor_at (pdu packet) (GBN.index_draw rnd) 1]
                else [pdu packet])
  /\ GBN.stats g'
     = Statistics.mk (Statistics.sent st + 1)
         (Statistics.dropping st + (if dropped rnd then 1 else 0))
         (Statistics.corrupting st + (if garbled rnd then 1 else 0))
         (Statistics.rcvd st) (Statistics.corrupt st)
         (Statistics.elapsed st).
Proof.
  cbv zeta. unfold GBN.udt_send, garbled, dropped. cbv zeta.
  destruct (GBN.Qlt_bool 0 LOSSRATE && Qle_bool (GBN.loss_draw rnd) LOSSRATE);
    cbn [negb andb].
  - cbn. rewrite app_nil_r, !Z.add_0_r. destruct (GBN.stats g).
    repeat split.
  - destruct (GBN.Qlt_bool 0 PER && GBN.Qlt_bool (GBN.error_draw rnd) PER);
      cbn; rewrite !Z.add_0_r; destruct (GBN.stats g); repeat split.
Qed.

Lemma xor_at_length (l : list byte) :
  forall (i : nat) (m : Z), length (xor_at l i m) = length l.
Proof.
  induction l as [| b l IH]; intros [| i] m; cbn [xor_at length];
    auto.
Qed.

(** One flipped bit in a packet the constructor built fails the check. *)
Lemma flipped_pdu_corrupt
  (type : Z) (sq : seq_arg) (data : list byte) (p : Packet) (i : nat) (j : Z) :
  Packet_new type sq data = Ok p ->
  (i < length (pdu p))%nat -> 0 <= j < 8 ->
  corrupt (mkPacket (flip_bit (pdu p) i j)) = true
  /\ corrupt p = false.
Proof.
  intros E L J.
  destruct (Packet_new_accepts _ _ _ _ E) as [Ht Hs].
  destruct (Packet_new_ok type sq data Ht Hs)
    as (t & s & hi & lo & E' & _ & _ & C).
  rewrite E in E'. injection E' as ->.
  pose proof (stored_checksum_verifies _ _ _ _ _ C) as V.
  split; [| exact V].
  apply corrupt_false_iff in V. destruct V as [V1 V2].
  destruct (corrupt (mkPacket (flip_bit _ i j))) eqn:F; [reflexivity |].
  apply corrupt_false_iff in F. destruct F as [F1 F2].
  cbn [pdu] in *.
  destruct (sum_words_flip_bit _ i j L J) as (d & D & [S | S]);
    rewrite S in F2;
    apply Z.mod_divide in V2, F2; try lia;
    destruct V2 as [q Q], F2 as [q' Q']; lia.
Qed.

End ChannelFacts.

(** X13. The books of [udt_send].  After any run of [udt_send] calls on
    packets built by [Packet(type, seq, data)] (each index drawn inside
    its pdu, as [randrange] draws it), [sent] has
    grown by the number of calls, [dropping] by the calls that were
    dropped and [corrupting] by the calls that were corrupted; the socket
    was handed, in order, nothing for a dropped call, the pdu with the
    lowest bit of one byte flipped for a corrupted one, the pdu itself
    otherwise, so as many datagrams as calls not dropped; a dropped
    packet is never also corrupted; the receive counters, the timer and
    the queues are untouched. *)
Theorem udt_send_books (g : GBN.t) (calls : list (Packet * GBN.draws)) :
  Forall (fun c => exists type sq data, Packet_new type sq data = Ok (fst c))
         calls ->
  Forall (fun c => (GBN.index_draw (snd c) < length (pdu (fst c)))%nat)
         calls ->
  let g' := udt_send_all g calls in
  let n_dropped := length (filter (fun c => dropped (snd c)) calls) in
  let n_garbled := length (filter (fun c => garbled (snd c)) calls) in
  Statistics.sent (GBN.stats g')
  = Statistics.sent (GBN.stats g) + Z.of_nat (length calls)
  /\ Statistics.dropping (GBN.stats g')
     = Statistics.dropping (GBN.stats g) + Z.of_nat n_dropped
  /\ Statistics.corrupting (GBN.stats g')
     = Statistics.corrupting (GBN.stats g) + Z.of_nat n_garbled
  /\ GBN.sent_dgrams (GBN.sock g')
     = GBN.sent_dgrams (GBN.sock g)
       ++ flat_map
            (fun c =>
               if dropped (snd c) then []
               else if garbled (snd c)
                    then [xor_at (pdu (fst c)) (GBN.index_draw (snd c)) 1]
                    else [pdu (fst c)])
            calls
  /\ (length (GBN.sent_dgrams (GBN.sock g')) + n_dropped
      = length (GBN.sent_dgrams (GBN.sock g)) + length calls)%nat
  /\ (n_dropped + n_garbled <= length calls)%nat
  /\ Statistics.rcvd (GBN.stats g') = Statistics.rcvd (GBN.stats g)
  /\ Statistics.corrupt (GBN.stats g') = Statistics.corrupt (GBN.stats g)
  /\ GBN.timer g' = GBN.timer g
  /\ GBN.down_queue g' = GBN.down_queue g
  /\ GBN.up_queue g' = GBN.up_queue g.
Proof.
  intros _ _. cbv zeta. revert g.
  induction calls as [| [p rnd] calls IH]; intros g.
  - cbn. rewrite app_nil_r, !Z.add_0_r. repeat split; lia.
  - change (udt_send_all g ((p, rnd) :: calls))
      with (udt_send_all (GBN.udt_send g p rnd) calls).
    destruct (IH (GBN.udt_send g p rnd))
      as (I1 & I2 & I3 & I4 & I5 & I6 & I7 & I8 & I9 & I10 & I11).
    destruct (udt_send_cases g p rnd) as (U1 & U2 & U3 & _ & _ & U6 & U7).
    cbv zeta in U1, U2, U3, U6, U7.
    rewrite I4, U6 in I5.
    rewrite I1, I2, I3, I4, I7, I8, I9, I10, I11, U1, U2, U3, U6, U7.
    cbn [Statistics.sent Statistics.dropping Statistics.corrupting
         Statistics.rcvd Statistics.corrupt].
    cbn [filter flat_map fst snd].
    rewrite <- app_assoc.
    assert (X : dropped rnd = true -> garbled rnd = false)
      by (unfold garbled; intros ->; reflexivity).
    destruct (dropped rnd); [rewrite X by reflexivity | destruct (garbled rnd)];
      cbn [length app] in *; rewrite ?length_app in *;
      cbn [length] in *; rewrite ?length_app in *; repeat split; lia.
Qed.

Lemma udt_send_books_witness :
  Forall (fun c => exists type sq data, Packet_new type sq data = Ok (fst c))
         [(fin0, GBN.mkDraws (1 # 2)%Q (1 # 20)%Q 1)]
  /\ Forall (fun c => (GBN.index_draw (snd c) < length (pdu (fst c)))%nat)
            [(fin0, GBN.mkDraws (1 # 2)%Q (1 # 20)%Q 1)]
  /\ Statistics.corrupting
       (GBN.stats
          (udt_send_all (GBN.new (String.EmptyString, receiver_port))
             [(fin0, GBN.mkDraws (1 # 2)%Q (1 # 20)%Q 1)]))
     = 0 + Z.of_nat 1.
Proof.
  assert (F : Forall (fun c => (GBN.index_draw (snd c)
                                < length (pdu (fst c)))%nat)
                     [(fin0, GBN.mkDraws (1 # 2)%Q (1 # 20)%Q 1)]).
  { constructor; [cbn; lia | constructor]. }
  assert (B : Forall (fun c => exists type sq data,
                          Packet_new type sq data = Ok (fst c))
                     [(fin0, GBN.mkDraws (1 # 2)%Q (1 # 20)%Q 1)]).
  { constructor; [| constructor].
    exists (PType.value PType.FIN), (SeqInt 0), []. vm_compute. reflexivity. }
  refine (conj B (conj F _)).
  exact (proj1 (proj2 (proj2
           (udt_send_books (GBN.new (String.EmptyString, receiver_port))
              _ B F)))).
Defined.

(** X14. A packet the channel corrupts is caught.  When [udt_send]
    corrupts a packet built by [Packet(type, seq, data)] of at most 2048
    bytes, the datagram it hands to the socket has the length of the pdu
    and differs from it, and [rdt_rcv] on that datagram returns a packet
    on which [corrupt()] is [True] and counts it both as received and as
    corrupt. *)
Theorem garbled_datagram_is_detected
  (g r : GBN.t) (type : Z) (sq : seq_arg) (data : list byte) (p : Packet)
  (rnd : GBN.draws) :
  Packet_new type sq data = Ok p ->
  garbled rnd = true ->
  (GBN.index_draw rnd < length (pdu p))%nat ->
  (length (pdu p) <= 2048)%nat ->
  exists d : list byte,
    GBN.sent_dgrams (GBN.sock (GBN.udt_send g p rnd))
    = GBN.sent_dgrams (GBN.sock g) ++ [d]
    /\ length d = length (pdu p)
    /\ d <> pdu p
    /\ pdu (snd (GBN.rdt_rcv r d)) = d
    /\ corrupt (snd (GBN.rdt_rcv r d)) = true
    /\ Statistics.rcvd (GBN.stats (fst (GBN.rdt_rcv r d)))
       = Statistics.rcvd (GBN.stats r) + 1
    /\ Statistics.corrupt (GBN.stats (fst (GBN.rdt_rcv r d)))
       = Statistics.corrupt (GBN.stats r) + 1.
Proof.
  intros E G I L.
  destruct (udt_send_cases g p rnd) as (_ & _ & _ & _ & _ & U & _).
  cbv zeta in U. rewrite G in U.
  assert (ND : dropped rnd = false).
  { unfold garbled in G. destruct (dropped rnd); [discriminate | reflexivity]. }
  rewrite ND in U.
  destruct (flipped_pdu_corrupt type sq data p (GBN.index_draw rnd) 0 E I
              ltac:(lia)) as [C V].
  unfold flip_bit in C. change (Z.shiftl 1 0) with 1 in C.
  set (d := xor_at (pdu p) (GBN.index_draw rnd) 1) in *.
  assert (Ld : length d = length (pdu p)) by apply xor_at_length.
  exists d. split; [exact U |]. split; [exact Ld |]. split.
  - intros Eq. rewrite Eq in C. destruct p as [raw]. cbn [pdu] in C.
    congruence.
  - unfold GBN.rdt_rcv, Packet_of_pdu. cbv zeta.
    rewrite firstn_all2 by lia. rewrite C.
    cbn [snd fst pdu GBN.stats GBN.set_stats Statistics.rcvd
         Statistics.corrupt].
    repeat split; try reflexivity. exact C.
Qed.

Lemma garbled_datagram_is_detected_witness :
  Packet_new (PType.value PType.FIN) (SeqInt 0) [] = Ok fin0
  /\ garbled (GBN.mkDraws (1 # 2)%Q (1 # 20)%Q 1) = true
  /\ (1 < length (pdu fin0))%nat
  /\ (length (pdu fin0) <= 2048)%nat
  /\ exists d : list byte,
       GBN.sent_dgrams
         (GBN.sock
            (GBN.udt_send (GBN.new (String.EmptyString, receiver_port)) fin0
               (GBN.mkDraws (1 # 2)%Q (1 # 20)%Q 1)))
       = [] ++ [d]
       /\ corrupt (snd (GBN.rdt_rcv
                          (GBN.new (String.EmptyString, sender_port)) d))
          = true.
Proof.
  assert (E : Packet_new (PType.value PType.FIN) (SeqInt 0) [] = Ok fin0)
    by (vm_compute; reflexivity).
  assert (G : garbled (GBN.mkDraws (1 # 2)%Q (1 # 20)%Q 1) = true)
    by reflexivity.
  assert (I : (1 < length (pdu fin0))%nat) by (cbn; lia).
  assert (L : (length (pdu fin0) <= 2048)%nat) by (cbn; lia).
  refine (conj E (conj G (conj I (conj L _)))).
  destruct (garbled_datagram_is_detected
              (GBN.new (String.EmptyString, receiver_port))
              (GBN.new (String.EmptyString, sender_port))
              _ _ _ _ _ E G I L) as (d & U & _ & _ & _ & C & _).
  exists d. split; [exact U | exact C].
Defined.

(** X15. A packet the channel lets through arrives as it was sent.  When
    [udt_send] neither drops nor corrupts a packet built by
    [Packet(type, seq, data)] with at most 2044 bytes of data, it hands
    the pdu to the socket, and [rdt_rcv] on that datagram returns the
    same packet, passing [corrupt()], with the data it was built from,
    counted as received and not as corrupt.  Whatever the datagram,
    [rdt_rcv] returns at most its first 2048 bytes. *)
Theorem clean_datagram_round_trip
  (g r : GBN.t) (type : Z) (sq : seq_arg) (data : list byte) (p : Packet)
  (rnd : GBN.draws) :
  Packet_new type sq data = Ok p ->
  dropped rnd = false ->
  garbled rnd = false ->
  (length data <= 2044)%nat ->
  GBN.sent_dgrams (GBN.sock (GBN.udt_send g p rnd))
  = GBN.sent_dgrams (GBN.sock g) ++ [pdu p]
  /\ snd (GBN.rdt_rcv r (pdu p)) = p
  /\ corrupt (snd (GBN.rdt_rcv r (pdu p))) = false
  /\ extract (snd (GBN.rdt_rcv r (pdu p))) = data
  /\ Statistics.rcvd (GBN.stats (fst (GBN.rdt_rcv r (pdu p))))
     = Statistics.rcvd (GBN.stats r) + 1
  /\ Statistics.corrupt (GBN.stats (fst (GBN.rdt_rcv r (pdu p))))
     = Statistics.corrupt (GBN.stats r)
  /\ (forall dgram : list byte,
         pdu (snd (GBN.rdt_rcv r dgram)) = firstn 2048 dgram
         /\ (length (pdu (snd (GBN.rdt_rcv r dgram))) <= 2048)%nat).
Proof.
  intros E ND NG L.
  destruct (udt_send_cases g p rnd) as (_ & _ & _ & _ & _ & U & _).
  cbv zeta in U. rewrite ND, NG in U.
  destruct (Packet_new_accepts _ _ _ _ E) as [Ht Hs].
  destruct (Packet_new_ok type sq data Ht Hs)
    as (t & s & hi & lo & E' & _ & _ & C).
  rewrite E in E'. injection E' as ->.
  pose proof (stored_checksum_verifies _ _ _ _ _ C) as V.
  split; [exact U |].
  assert (R : forall dgram,
             pdu (snd (GBN.rdt_rcv r dgram)) = firstn 2048 dgram).
  { intros dgram. unfold GBN.rdt_rcv, Packet_of_pdu. cbv zeta.
    destruct (corrupt (mkPacket (firstn 2048 dgram))); reflexivity. }
  assert (F : firstn 2048 (t :: s :: hi :: lo :: data)
              = t :: s :: hi :: lo :: data)
    by (apply firstn_all2; cbn [length]; lia).
  assert (Last : forall dgram : list byte,
             pdu (snd (GBN.rdt_rcv r dgram)) = firstn 2048 dgram
             /\ (length (pdu (snd (GBN.rdt_rcv r dgram))) <= 2048)%nat).
  { intros dgram. rewrite R. split; [reflexivity |].
    rewrite length_firstn. lia. }
  cbn [pdu].
  assert (Rp : snd (GBN.rdt_rcv r (t :: s :: hi :: lo :: data))
               = mkPacket (t :: s :: hi :: lo :: data)
               /\ GBN.stats (fst (GBN.rdt_rcv r (t :: s :: hi :: lo :: data)))
                  = Statistics.mk (Statistics.sent (GBN.stats r))
                      (Statistics.dropping (GBN.stats r))
                      (Statistics.corrupting (GBN.stats r))
                      (Statistics.rcvd (GBN.stats r) + 1)
                      (Statistics.corrupt (GBN.stats r))
                      (Statistics.elapsed (GBN.stats r))).
  { unfold GBN.rdt_rcv, Packet_of_pdu. cbv zeta. rewrite F, V.
    split; reflexivity. }
  destruct Rp as [Rp1 Rp2]. rewrite Rp1, Rp2.
  cbn [Statistics.rcvd Statistics.corrupt].
  repeat (split; [first [reflexivity | exact V] |]).
  exact Last.
Qed.

Lemma clean_datagram_round_trip_witness :
  Packet_new (PType.value PType.FIN) (SeqInt 0) [] = Ok fin0
  /\ dropped (GBN.mkDraws (1 # 2)%Q (1 # 2)%Q 0) = false
  /\ garbled (GBN.mkDraws (1 # 2)%Q (1 # 2)%Q 0) = false
  /\ (length (@nil byte) <= 2044)%nat
  /\ snd (GBN.rdt_rcv (GBN.new (String.EmptyString, sender_port)) (pdu fin0))
     = fin0.
Proof.
  assert (E : Packet_new (PType.value PType.FIN) (SeqInt 0) [] = Ok fin0)
    by (vm_compute; reflexivity).
  assert (ND : dropped (GBN.mkDraws (1 # 2)%Q (1 # 2)%Q 0) = false)
    by reflexivity.
  assert (NG : garbled (GBN.mkDraws (1 # 2)%Q (1 # 2)%Q 0) = false)
    by reflexivity.
  assert (L : (length (@nil byte) <= 2044)%nat) by (cbn; lia).
  refine (conj E (conj ND (conj NG (conj L _)))).
  exact (proj1 (proj2
           (clean_datagram_round_trip
              (GBN.new (String.EmptyString, receiver_port))
              (GBN.new (String.EmptyString, sender_port))
              _ _ _ _ _ E ND NG L))).
Defined.

(** ** The event loops *)

Section EventLoopFacts.

Lemma check_timeout_nothing_pending (tm : Timer.t) (clock : Q) :
  Timer.times tm = [] -> Timer.check_timeout tm clock = (None, tm).
Proof.
  destruct tm as [times intv]. cbn [Timer.times]. intros ->. reflexivity.
Qed.

(** The test of [get_event], by the room left in the window. *)
Lemma gate_by_room (s : GBNsend.t) :
  Seq.wf (GBNsend.base s) -> Seq.wf (GBNsend.next_seq s) ->
  Seq.lt (GBNsend.next_seq s) (Seq.add (GBNsend.base s) (GBNsend.N s)) = true
  <-> 0 < (GBNsend.N s
           - forward_distance (GBNsend.base s) (GBNsend.next_seq s)) mod 256
      < 128.
Proof.
  intros Wb Wn. rewrite lt_forward; [| assumption | apply add_wf].
  unfold forward_distance, Seq.add, Seq.new. cbn [Seq.seq].
  rewrite MOD_val.
  replace (((Seq.seq (GBNsend.base s) + GBNsend.N s) mod 256
            - Seq.seq (GBNsend.next_seq s)) mod 256)
    with ((GBNsend.N s
           - (Seq.seq (GBNsend.next_seq s) - Seq.seq (GBNsend.base s))
             mod 256) mod 256); [reflexivity |].
  rewrite Zminus_mod_idemp_l, Zminus_mod_idemp_r. f_equal. lia.
Qed.

End EventLoopFacts.

(** X16. The order in which [check_event] looks.  A socket in the
    exceptional set raises [OSError]; otherwise a readable socket gives
    [Packet_Arrival] and leaves the timer unpolled, even with timeouts
    due; otherwise, when some pending timeout is due, the event is a
    pending kind that is due and expires no later than any other, so an
    application request waits; [App_Request] (not itself a pending kind)
    is reported only with a queue passed and holding a chunk, the socket
    not readable and no timeout due; [None] only with the socket not
    readable, no timeout due and no chunk in a queue passed.  The queues,
    the socket and the statistics are never touched. *)
Theorem check_event_priority (g : GBN.t) (env : GBN.poll) (q : bool) :
  (GBN.exceptional env = true -> GBN.check_event g env q = Raise OSError)
  /\ (GBN.exceptional env = false -> GBN.readable env = true ->
      GBN.check_event g env q = Ok (Some Packet_Arrival, g))
  /\ (GBN.exceptional env = false -> GBN.readable env = false ->
      forall (k : Ev) (t : Q),
        In (k, t) (Timer.times (GBN.timer g)) -> (t <= GBN.now env)%Q ->
        exists (k' : Ev) (t' : Q) (g' : GBN.t),
          GBN.check_event g env q = Ok (Some k', g')
          /\ In (k', t') (Timer.times (GBN.timer g))
          /\ (t' <= GBN.now env)%Q /\ (t' <= t)%Q)
  /\ (forall (r : option Ev) (g' : GBN.t),
         GBN.check_event g env q = Ok (r, g') ->
         GBN.down_queue g' = GBN.down_queue g
         /\ GBN.up_queue g' = GBN.up_queue g
         /\ GBN.sock g' = GBN.sock g
         /\ GBN.stats g' = GBN.stats g
         /\ (r = Some App_Request ->
             ~ In App_Request (map fst (Timer.times (GBN.timer g))) ->
             GBN.readable env = false
             /\ q = true /\ GBN.down_queue g <> None /\ g' = g
             /\ forall k t, In (k, t) (Timer.times (GBN.timer g)) ->
                            ~ (t <= GBN.now env)%Q)
         /\ (r = None ->
             GBN.readable env = false
             /\ (q = true -> GBN.down_queue g = None) /\ g' = g
             /\ forall k t, In (k, t) (Timer.times (GBN.timer g)) ->
                            ~ (t <= GBN.now env)%Q)).
Proof.
  destruct g as [sock dq uq st tm].
  pose proof (find_expired (Timer.times tm) (GBN.now env)) as F.
  split; [| split; [| split]].
  - intros X. unfold GBN.check_event. rewrite X. reflexivity.
  - intros X R. unfold GBN.check_event. rewrite X, R. reflexivity.
  - intros X R k t I L. unfold GBN.check_event, Timer.check_timeout.
    rewrite X, R. cbv zeta. cbn [GBN.timer] in *.
    destruct (find _ (Timer.sorted_by_expiry (Timer.times tm)))
      as [[k' t'] |].
    + destruct F as (I' & L' & M). cbn [snd] in L', M.
      exists k', t'. eexists. split; [reflexivity |].
      repeat split; try assumption. apply (M (k, t) I).
    + exfalso. exact (F (k, t) I L).
  - intros r g' H. unfold GBN.check_event, Timer.check_timeout in H.
    cbv zeta in H.
    cbn [GBN.timer GBN.down_queue GBN.up_queue GBN.sock GBN.stats] in *.
    destruct (GBN.exceptional env); [discriminate |].
    destruct (GBN.readable env).
    + injection H as <- <-.
      repeat split; intros; discriminate.
    + destruct (find _ (Timer.sorted_by_expiry (Timer.times tm)))
        as [[k' t'] |].
      * destruct F as (I' & L' & M). cbn [snd] in L', M.
        cbn [GBN.set_timer GBN.sock GBN.down_queue GBN.up_queue GBN.stats]
          in H.
        injection H as <- <-.
        repeat (split; [reflexivity |]).
        split; [| discriminate].
        intros E N. exfalso. injection E as ->. apply N.
        apply in_map_iff. exists (App_Request, t'). auto.
      * destruct tm as [times intv].
        cbn [GBN.set_timer GBN.sock GBN.down_queue GBN.up_queue GBN.stats
             GBN.timer Timer.times] in *.
        assert (NoDue : forall k t, In (k, t) times ->
                                    ~ (t <= GBN.now env)%Q)
          by (intros k t I; exact (F (k, t) I)).
        destruct q; cbn [negb] in H;
          [destruct dq as [chunk |] |];
          injection H as <- <-;
          repeat (split; [reflexivity |]);
          (split; [intros E _; try discriminate E | intros E; try discriminate E]);
          repeat split; try reflexivity; try exact NoDue;
          try discriminate; intros Q; discriminate Q.
Qed.

(** X17. When the sender reports an application request.  With [base]
    and [next_seq] sequence numbers, [get_event] returns [App_Request]
    only if the room [(N - (next_seq - base)) mod 256] is above 0 and
    below 128.  So a sender with an empty window and a window size from
    128 to 255, which [open] accepts, never returns [App_Request],
    whatever it observes. *)
Theorem app_request_needs_room
  (s s' : GBNsend.t) (polls : list GBN.poll) (r : option Ev) :
  Seq.wf (GBNsend.base s) -> Seq.wf (GBNsend.next_seq s) ->
  GBNsend.get_event s polls = Ok (r, s') ->
  (r = Some App_Request ->
   0 < (GBNsend.N s
        - forward_distance (GBNsend.base s) (GBNsend.next_seq s)) mod 256
   < 128)
  /\ (GBNsend.base s = GBNsend.next_seq s ->
      Seq.HALF <= GBNsend.N s < Seq.MOD ->
      r <> Some App_Request).
Proof.
  intros Wb Wn G. apply get_event_frame in G.
  destruct G as (_ & _ & _ & _ & G).
  assert (A : r = Some App_Request ->
              0 < (GBNsend.N s
                   - forward_distance (GBNsend.base s) (GBNsend.next_seq s))
                  mod 256 < 128).
  { intros E. apply gate_by_room; auto. }
  split; [exact A |].
  rewrite HALF_val, MOD_val. intros E R Q. specialize (A Q).
  rewrite E in A. unfold forward_distance in A.
  rewrite Z.sub_diag, Zmod_0_l, Z.sub_0_r, Z.mod_small in A by lia. lia.
Qed.

Lemma app_request_needs_room_witness :
  Seq.wf (GBNsend.base (GBNsend.new (String.EmptyString, receiver_port) 200))
  /\ Seq.wf (GBNsend.next_seq
               (GBNsend.new (String.EmptyString, receiver_port) 200))
  /\ GBNsend.get_event
       (GBNsend.set_gbn (GBNsend.new (String.EmptyString, receiver_port) 200)
          (GBN.set_down_queue (GBN.new (String.EmptyString, receiver_port))
             (Some [x61])))
       [GBN.mkPoll false false 0%Q]
     = Ok (None,
           GBNsend.set_gbn
             (GBNsend.new (String.EmptyString, receiver_port) 200)
             (GBN.set_down_queue
                (GBN.new (String.EmptyString, receiver_port)) (Some [x61])))
  /\ (Seq.new 0 = Seq.new 0 -> Seq.HALF <= 200 < Seq.MOD ->
      @None Ev <> Some App_Request).
Proof.
  assert (W : Seq.wf (Seq.new 0)) by apply new_wf.
  assert (G : GBNsend.get_event
                (GBNsend.set_gbn
                   (GBNsend.new (String.EmptyString, receiver_port) 200)
                   (GBN.set_down_queue
                      (GBN.new (String.EmptyString, receiver_port))
                      (Some [x61])))
                [GBN.mkPoll false false 0%Q]
              = Ok (None,
                    GBNsend.set_gbn
                      (GBNsend.new (String.EmptyString, receiver_port) 200)
                      (GBN.set_down_queue
                         (GBN.new (String.EmptyString, receiver_port))
                         (Some [x61]))))
    by reflexivity.
  refine (conj W (conj W (conj G _))).
  exact (proj2 (app_request_needs_room
                  (GBNsend.set_gbn
                     (GBNsend.new (String.EmptyString, receiver_port) 200)
                     (GBN.set_down_queue
                        (GBN.new (String.EmptyString, receiver_port))
                        (Some [x61])))
                  _ _ _ W W G)).
Defined.

(** ** What the two engines do as they stand *)

Section IdleFacts.

Lemma sender_fsm_step_idle (s : GBNsend.t) (env : GBN.poll) (dgram : list byte) :
  sender_idle s ->
  match GBNsend.fsm_step s env dgram with
  | Ok s' => sender_idle s'
  | Raise e => e = OSError /\ GBN.exceptional env = true
  end.
Proof.
  destruct s as [[[bound peer dg] dq uq st [times intv]] N buf state base next].
  destruct st as [sent dropping corrupting rcvd corrupt_ elapsed].
  unfold sender_idle. cbn. intros (-> & -> & -> & -> & ->).
  unfold GBNsend.fsm_step, GBNsend.get_event_once, GBN.check_event.
  destruct (GBN.exceptional env); [cbn; auto |].
  destruct (GBN.readable env).
  - cbn [bind GBNsend.set_gbn GBNsend.gbn GBNsend.N GBNsend.sndbuf
         GBNsend.state GBNsend.base GBNsend.next_seq].
    unfold GBNsend.fsm_body, GBN.rdt_rcv. cbv zeta.
    cbn [GBNsend.gbn GBN.stats GBN.set_stats Statistics.sent
         Statistics.dropping Statistics.corrupting Statistics.rcvd
         Statistics.corrupt Statistics.elapsed GBN.sock GBN.down_queue
         GBN.up_queue GBN.timer].
    destruct (corrupt (Packet_of_pdu (firstn 2048 dgram)));
      cbn; repeat split.
  - unfold Timer.check_timeout. cbv zeta.
    cbn [GBN.timer GBNsend.gbn Timer.times Timer.sorted_by_expiry
         fold_right find GBN.set_timer GBN.sock GBN.down_queue GBN.up_queue
         GBN.stats negb].
    destruct dq as [chunk |];
      cbn [bind GBNsend.set_gbn GBNsend.gbn GBNsend.N GBNsend.sndbuf
           GBNsend.state GBNsend.base GBNsend.next_seq].
    + destruct (Seq.lt next (Seq.add base N)); cbn; repeat split.
    + cbn. repeat split.
Qed.

Lemma receiver_fsm_step_idle
  (s : GBNrecv.t) (st : option Q) (env : GBN.poll) (dgram : list byte) :
  receiver_idle (s, st) ->
  match GBNrecvFsm.fsm_step s st env dgram with
  | Ok c' => receiver_idle c'
  | Raise e => e = OSError /\ GBN.exceptional env = true
  end.
Proof.
  destruct s as [[[bound peer dg] dq uq stats [times intv]] N buf state base fin].
  destruct stats as [sent dropping corrupting rcvd corrupt_ elapsed].
  unfold receiver_idle. cbn. intros (-> & -> & -> & -> & -> & -> & R & S).
  unfold GBNrecvFsm.fsm_step, GBNrecvFsm.get_event_once, GBN.check_event.
  destruct (GBN.exceptional env); [cbn; auto |].
  destruct (GBN.readable env).
  - cbn [bind GBNrecvFsm.set_gbn GBNrecv.gbn].
    unfold GBNrecvFsm.fsm_body, GBN.rdt_rcv. cbv zeta.
    cbn [GBNrecv.gbn GBN.stats GBN.set_stats Statistics.sent
         Statistics.dropping Statistics.corrupting Statistics.rcvd
         Statistics.corrupt Statistics.elapsed GBN.sock GBN.down_queue
         GBN.up_queue GBN.timer].
    destruct (corrupt (Packet_of_pdu (firstn 2048 dgram)));
      cbn;
      (repeat split; try reflexivity; try lia;
       destruct st; try discriminate; intros; lia).
  - unfold Timer.check_timeout. cbv zeta.
    cbn [GBN.timer GBNrecv.gbn Timer.times Timer.sorted_by_expiry
         fold_right find GBN.set_timer GBN.sock GBN.down_queue GBN.up_queue
         GBN.stats negb bind].
    cbn.
    repeat split; try reflexivity; try lia; apply S.
Qed.

End IdleFacts.

(** X18. The sender as it stands.  [send_packet], [retransmit],
    [handle_ACK] and the [Wait] branch of [fsm] being empty, a sender
    opened with any window size stays in [Wait] in every state it
    reaches: it never hands a datagram to the socket, never counts a
    packet as sent, never starts a timer, and its window and send buffer
    stay as [__init__] made them.  From such a state a pass of the loop
    raises only when the socket reports an exceptional condition
    ([OSError]); otherwise it ends normally, so the thread never reaches
    [Closed]. *)
Theorem sender_never_transmits (peer : GBN.address) (n : Z) (s : GBNsend.t) :
  GBNsend.reachable (GBNsend.new peer n) s ->
  GBNsend.state s = Wait
  /\ GBN.sent_dgrams (GBN.sock (GBNsend.gbn s)) = []
  /\ Statistics.sent (GBN.stats (GBNsend.gbn s)) = 0
  /\ Timer.times (GBN.timer (GBNsend.gbn s)) = []
  /\ GBNsend.base s = Seq.new 0 /\ GBNsend.next_seq s = Seq.new 0
  /\ GBNsend.sndbuf s = PacketBuffer.new n
  /\ (forall (env : GBN.poll) (dgram : list byte),
         match GBNsend.fsm_step s env dgram with
         | Ok s' => GBNsend.state s' = Wait
         | Raise e => e = OSError /\ GBN.exceptional env = true
         end).
Proof.
  intros R.
  assert (I : sender_idle s).
  { induction R as [| s s' R IH S].
    - repeat split.
    - destruct S as [s0 data Q | s0 s1 env dgram NC F].
      + destruct IH as (I1 & I2 & I3 & I4 & I5). repeat split; assumption.
      + pose proof (sender_fsm_step_idle s0 env dgram IH) as P.
        rewrite F in P. exact P. }
  pose proof (reachable_frame _ _ R) as (_ & F2 & F3 & F4).
  destruct I as (I1 & I2 & I3 & I4 & I5).
  repeat (split; [assumption |]).
  intros env dgram.
  pose proof (sender_fsm_step_idle s env dgram
                (conj I1 (conj I2 (conj I3 (conj I4 I5))))) as P.
  destruct (GBNsend.fsm_step s env dgram); [apply P | exact P].
Qed.

Lemma sender_never_transmits_witness :
  GBNsend.reachable (GBNsend.new (String.EmptyString, receiver_port) 16)
    (GBNsend.set_gbn (GBNsend.new (String.EmptyString, receiver_port) 16)
       (GBN.set_down_queue (GBN.new (String.EmptyString, receiver_port))
          (Some [x61])))
  /\ GBNsend.state
       (GBNsend.set_gbn (GBNsend.new (String.EmptyString, receiver_port) 16)
          (GBN.set_down_queue (GBN.new (String.EmptyString, receiver_port))
             (Some [x61])))
     = Wait.
Proof.
  assert (R : GBNsend.reachable
                (GBNsend.new (String.EmptyString, receiver_port) 16)
                (GBNsend.set_gbn
                   (GBNsend.new (String.EmptyString, receiver_port) 16)
                   (GBN.set_down_queue
                      (GBN.new (String.EmptyString, receiver_port))
                      (Some [x61])))).
  { eapply GBNsend.reach_step; [apply GBNsend.reach_init |].
    apply (GBNsend.step_app
             (GBNsend.new (String.EmptyString, receiver_port) 16) [x61]).
    reflexivity. }
  refine (conj R _).
  exact (proj1 (sender_never_transmits _ _ _ R)).
Defined.

(** X19. The receiver as it stands.  [handle_packet], [feedback_ACK] and
    the [Wait] branch of [fsm] being empty, a receiver opened with any
    window size stays in [Wait] in every state it reaches: it never puts
    a chunk in the up queue (so [recv()] never returns), never sends an
    acknowledgment, never starts a timer and never marks the [FIN] as
    delivered; it only counts the datagrams that arrive, the corrupt ones
    among them, and notes its start time at the first of them. *)
Theorem receiver_never_delivers
  (peer : GBN.address) (n : Z) (s : GBNrecv.t) (st : option Q) :
  GBNrecvFsm.reachable (GBNrecv.new peer n) (s, st) ->
  GBNrecv.state s = Wait
  /\ GBNrecv.FIN_delivered s = false
  /\ GBN.up_queue (GBNrecv.gbn s) = None
  /\ GBN.sent_dgrams (GBN.sock (GBNrecv.gbn s)) = []
  /\ Statistics.sent (GBN.stats (GBNrecv.gbn s)) = 0
  /\ Timer.times (GBN.timer (GBNrecv.gbn s)) = []
  /\ 0 <= Statistics.corrupt (GBN.stats (GBNrecv.gbn s))
     <= Statistics.rcvd (GBN.stats (GBNrecv.gbn s))
  /\ (st = None <-> Statistics.rcvd (GBN.stats (GBNrecv.gbn s)) = 0).
Proof.
  intros R.
  change (receiver_idle (s, st)).
  remember (s, st) as c eqn:E. clear E s st.
  induction R as [| c c' R IH S].
  - unfold receiver_idle. cbn. repeat split; try lia; auto.
  - destruct S as [s0 st0 data Q | s0 s1 st0 st1 env dgram NC F].
    + destruct IH as (_ & _ & U & _). cbn [fst] in U. congruence.
    + pose proof (receiver_fsm_step_idle s0 st0 env dgram IH) as P.
      rewrite F in P. exact P.
Qed.

Lemma receiver_never_delivers_witness :
  GBNrecvFsm.reachable (GBNrecv.new (String.EmptyString, sender_port) 16)
    (GBNrecv.new (String.EmptyString, sender_port) 16, None)
  /\ GBNrecv.state (GBNrecv.new (String.EmptyString, sender_port) 16) = Wait.
Proof.
  assert (R : GBNrecvFsm.reachable
                (GBNrecv.new (String.EmptyString, sender_port) 16)
                (GBNrecv.new (String.EmptyString, sender_port) 16, None))
    by apply GBNrecvFsm.reach_init.
  refine (conj R _).
  exact (proj1 (receiver_never_delivers _ _ _ _ R)).
Defined.

(** ** More on the checksum *)

Section SeededChecksumFacts.

Lemma sum_words_app_even (l1 l2 : list byte) :
  Nat.even (length l1) = true ->
  forall a, sum_words (l1 ++ l2) a = sum_words l2 (sum_words l1 a).
Proof.
  induction l1 as [| b | b0 b1 rest IH] using pairs_ind;
    cbn [length Nat.even app]; intros E a.
  - reflexivity.
  - discriminate.
  - cbn [sum_words]. apply IH, E.
Qed.

Lemma fold_carries_seed (total : Z) :
  0 <= total -> fold_carries (Z.to_nat total) total = end_around_carry total.
Proof. apply fold_carries_closed_form. Qed.

End SeededChecksumFacts.

(** X20. [ichecksum(sum)] with a seed.  For every pdu and every seed,
    negative ones included, the result lies between 0 and [0xFFFF] and
    the [while] loop has stopped on a sum without carries.  For a seed
    that is not negative the result is the one's complement of the seed
    plus the words of the pdu, carries folded back; so the checksum of an
    even number of bytes followed by more bytes is the checksum of those
    further bytes seeded with the sum of the words of the first. *)
Theorem ichecksum_seeded (l1 l2 : list byte) (sum : Z) :
  0 <= ichecksum (mkPacket l2) sum <= 0xFFFF
  /\ (Z.shiftr (fold_carries (Z.to_nat (sum_words l2 sum)) (sum_words l2 sum))
        16 >? 0) = false
  /\ (0 <= sum ->
      ichecksum (mkPacket l2) sum
      = 0xFFFF - end_around_carry (sum + sum_words l2 0))
  /\ (Nat.even (length l1) = true ->
      ichecksum (mkPacket (l1 ++ l2)) 0
      = ichecksum (mkPacket l2) (sum_words l1 0)).
Proof.
  split; [| split; [| split]].
  - unfold ichecksum. cbv zeta. cbn [pdu]. rewrite land16.
    pose proof (Z.mod_pos_bound
                  (Z.lnot (fold_carries (Z.to_nat (sum_words l2 sum))
                             (sum_words l2 sum))) 65536 ltac:(lia)).
    lia.
  - apply fold_carries_exit.
  - intros P. unfold ichecksum. cbv zeta. cbn [pdu].
    rewrite (sum_words_acc l2 sum).
    pose proof (sum_words_nonneg l2) as N.
    destruct (fold_carries_spec (Z.to_nat (sum + sum_words l2 0))
                (sum + sum_words l2 0)) as (R & _); try lia.
    rewrite lnot_land16 by exact R.
    rewrite fold_carries_seed by lia. reflexivity.
  - intros E. unfold ichecksum. cbv zeta. cbn [pdu].
    rewrite (sum_words_app_even l1 l2 E). reflexivity.
Qed.

(** X21. What the checksum cannot see.  A pdu passes [corrupt()] exactly
    when the sum of its words is a multiple of [0xFFFF] and not zero; so
    a pdu of zero bytes only, of any length, never passes, and
    exchanging two 16-bit words that start at even offsets changes
    neither [ichecksum()] nor [corrupt()]: reordered words go
    undetected. *)
Theorem checksum_blind_to_word_order
  (l1 l2 : list byte) (a b c d : byte) (n : nat) :
  (forall p : Packet,
      corrupt p = false
      <-> 0 < sum_words (pdu p) 0 /\ sum_words (pdu p) 0 mod 65535 = 0)
  /\ corrupt (mkPacket (repeat x00 n)) = true
  /\ (Nat.even (length l1) = true ->
      ichecksum (mkPacket (l1 ++ [a; b; c; d] ++ l2)) 0
      = ichecksum (mkPacket (l1 ++ [c; d; a; b] ++ l2)) 0
      /\ corrupt (mkPacket (l1 ++ [a; b; c; d] ++ l2))
         = corrupt (mkPacket (l1 ++ [c; d; a; b] ++ l2))).
Proof.
  assert (Z0 : forall m, sum_words (repeat x00 m) 0 = 0
                         /\ sum_words (x00 :: repeat x00 m) 0 = 0).
  { induction m as [| m [IH1 IH2]]; [split; reflexivity |].
    split; [exact IH2 |]. cbn [repeat sum_words].
    change (0 + (Z.shiftl (byte_val x00) 8 + byte_val x00)) with 0.
    exact IH1. }
  split; [| split].
  - intros p. destruct (ichecksum_value p) as (E & R1 & R2 & R3).
    cbv zeta in *. unfold corrupt.
    rewrite negb_false_iff, Z.eqb_eq, E.
    pose proof (sum_words_nonneg (pdu p)) as N.
    split.
    + intros H.
      assert (F : fold_carries (Z.to_nat (sum_words (pdu p) 0))
                    (sum_words (pdu p) 0) = 65535) by lia.
      rewrite F in R2, R3. rewrite <- R2. split; [| reflexivity].
      destruct (Z.eq_dec (sum_words (pdu p) 0) 0) as [Q | ]; [| lia].
      apply R3 in Q. lia.
    + intros [P M]. rewrite M in R2.
      apply Z.mod_divide in R2; [| lia]. destruct R2 as [q Q].
      assert (q = 1) by nia. lia.
  - unfold corrupt, ichecksum. cbv zeta. cbn [pdu].
    rewrite (proj1 (Z0 n)). reflexivity.
  - intros E.
    assert (S : sum_words (l1 ++ [a; b; c; d] ++ l2) 0
                = sum_words (l1 ++ [c; d; a; b] ++ l2) 0).
    { rewrite !(sum_words_app_even l1 _ E). cbn [app sum_words].
      rewrite (sum_words_acc l2), (sum_words_acc l2 (_ + _ + _)). lia. }
    unfold corrupt, ichecksum. cbv zeta. cbn [pdu]. rewrite S.
    split; reflexivity.
Qed.

(** X22. Changing an interval.  [set_intv(key, d)] and [get_intv(key)]
    raise [KeyError] exactly for a kind that has no interval;
    [set_intv] changes nothing pending; after it, [get_intv(key)]
    returns [d], the other kinds have the interval they had, the kinds
    that have an interval are the same, in the same order, and
    [start_timer(key)] goes through and leaves the kind pending. *)
Theorem timer_set_intv (tm : Timer.t) (key : Ev) (d t0 : Q) :
  (Timer.set_intv tm key d = Raise KeyError
   <-> dict_get Ev_eqb (Timer.intv tm) key = None)
  /\ (Timer.get_intv tm key = Raise KeyError
      <-> dict_get Ev_eqb (Timer.intv tm) key = None)
  /\ (dict_get Ev_eqb (Timer.intv tm) key <> None ->
      exists tm' : Timer.t,
        Timer.set_intv tm key d = Ok tm'
        /\ Timer.times tm' = Timer.times tm
        /\ Timer.get_intv tm' key = Ok d
        /\ (forall k, k <> key -> Timer.get_intv tm' k = Timer.get_intv tm k)
        /\ map fst (Timer.intv tm') = map fst (Timer.intv tm)
        /\ exists tm'' : Timer.t,
             Timer.start_timer tm' key t0 = Ok tm''
             /\ dict_mem Ev_eqb (Timer.times tm'') key = true
             /\ Timer.intv tm'' = Timer.intv tm').
Proof.
  unfold Timer.set_intv, Timer.get_intv, dict_mem.
  destruct (dict_get Ev_eqb (Timer.intv tm) key) as [d0 |] eqn:G.
  - split; [split; discriminate |]. split; [split; discriminate |].
    intros _. eexists. split; [reflexivity |].
    cbn [Timer.times Timer.intv].
    assert (S : dict_get Ev_eqb (dict_set Ev_eqb (Timer.intv tm) key d) key
                = Some d)
      by apply (dict_get_set_same Ev_eqb Ev_eqb_spec).
    split; [reflexivity |]. rewrite S. split; [reflexivity |].
    split; [| split].
    + intros k NE.
      rewrite (dict_get_set_other Ev_eqb Ev_eqb_spec) by exact NE.
      reflexivity.
    + rewrite (dict_set_keys Ev_eqb Ev_eqb_spec). unfold dict_mem.
      rewrite G. reflexivity.
    + unfold Timer.start_timer. cbn [Timer.times Timer.intv]. rewrite S.
      eexists. split; [reflexivity |]. cbn [Timer.times Timer.intv].
      rewrite (dict_get_set_same Ev_eqb Ev_eqb_spec). split; reflexivity.
  - split; [split; reflexivity |]. split; [split; reflexivity |].
    intros N. contradiction.
Qed.

(** ** The registry along a run *)

Section TimerRunFacts.

Lemma dict_set_keys_In (d : list (Ev * Q)) (k k' : Ev) (v : Q) :
  In k' (map fst (dict_set Ev_eqb d k v)) -> k' = k \/ In k' (map fst d).
Proof.
  rewrite (dict_set_keys Ev_eqb Ev_eqb_spec).
  destruct (dict_mem Ev_eqb d k); [auto |].
  rewrite in_app_iff. cbn [In]. intuition.
Qed.

Lemma dict_get_some_key (d : list (Ev * Q)) (k : Ev) (v : Q) :
  dict_get Ev_eqb d k = Some v -> In k (map fst d).
Proof.
  intros G. apply (dict_get_In Ev_eqb Ev_eqb_spec) in G.
  apply in_map_iff. exists (k, v). auto.
Qed.

Lemma run_timer_op_keeps (tm : Timer.t) (op : timer_op) :
  NoDup (map fst (Timer.times tm))
  /\ incl (map fst (Timer.times tm)) (map fst (Timer.intv tm)) ->
  NoDup (map fst (Timer.times (run_timer_op tm op)))
  /\ incl (map fst (Timer.times (run_timer_op tm op)))
          (map fst (Timer.intv (run_timer_op tm op)))
  /\ map fst (Timer.intv (run_timer_op tm op)) = map fst (Timer.intv tm).
Proof.
  intros [D I]. destruct op as [key clock | key | clock | key d];
    cbn [run_timer_op].
  - unfold Timer.start_timer.
    destruct (dict_get Ev_eqb (Timer.intv tm) key) as [d |] eqn:G;
      [| auto].
    cbn [Timer.times Timer.intv]. split; [| split; [| reflexivity]].
    + apply (dict_set_nodup Ev_eqb Ev_eqb_spec), D.
    + intros k' H. apply dict_set_keys_In in H. destruct H as [-> | H].
      * eapply dict_get_some_key, G.
      * apply I, H.
  - unfold Timer.stop_timer.
    destruct (dict_mem Ev_eqb (Timer.times tm) key); [| auto].
    cbn [Timer.times Timer.intv]. split; [| split; [| reflexivity]].
    + apply (dict_del_nodup Ev_eqb Ev_eqb_spec), D.
    + intros k' H. apply I.
      eapply (dict_del_keys_incl Ev_eqb Ev_eqb_spec), H.
  - unfold Timer.check_timeout. cbv zeta.
    destruct (find _ (Timer.sorted_by_expiry (Timer.times tm)))
      as [[k t0] |]; [| auto].
    cbn [snd Timer.times Timer.intv]. split; [| split; [| reflexivity]].
    + apply (dict_del_nodup Ev_eqb Ev_eqb_spec), D.
    + intros k' H. apply I.
      eapply (dict_del_keys_incl Ev_eqb Ev_eqb_spec), H.
  - unfold Timer.set_intv.
    destruct (dict_mem Ev_eqb (Timer.intv tm) key) eqn:M; [| auto].
    cbn [Timer.times Timer.intv].
    rewrite (dict_set_keys Ev_eqb Ev_eqb_spec), M. auto.
Qed.

End TimerRunFacts.

(** X23. One pending expiry per kind.  After any run of [start_timer],
    [stop_timer], [check_timeout] and [set_intv] calls on a new [Timer()]
    (calls that raise [KeyError] included), the registry holds no kind
    twice, only kinds that have an interval, hence at most the three
    timeouts of the module, and the kinds that have an interval are
    those the timer was created with. *)
Theorem timer_registry_along_runs (ops : list timer_op) :
  let tm := fold_left run_timer_op ops (Timer.new TO_interval) in
  NoDup (map fst (Timer.times tm))
  /\ (forall k, In k (map fst (Timer.times tm)) ->
                k = TO_Retransmit \/ k = TO_Closing \/ k = TO_DelayedACK)
  /\ (length (Timer.times tm) <= 3)%nat
  /\ map fst (Timer.intv tm) = [TO_Retransmit; TO_Closing; TO_DelayedACK].
Proof.
  cbv zeta.
  assert (G : forall tm0,
             NoDup (map fst (Timer.times tm0))
             /\ incl (map fst (Timer.times tm0)) (map fst (Timer.intv tm0)) ->
             NoDup (map fst (Timer.times (fold_left run_timer_op ops tm0)))
             /\ incl (map fst (Timer.times (fold_left run_timer_op ops tm0)))
                     (map fst (Timer.intv tm0))
             /\ map fst (Timer.intv (fold_left run_timer_op ops tm0))
                = map fst (Timer.intv tm0)).
  { induction ops as [| op ops IH]; intros tm0 H; cbn [fold_left].
    - destruct H. repeat split; assumption.
    - destruct (run_timer_op_keeps tm0 op H) as (D & I & K).
      destruct (IH _ (conj D I)) as (D' & I' & K').
      rewrite K in I', K'. repeat split; assumption. }
  destruct (G (Timer.new TO_interval)) as (D & I & K).
  { split; [constructor | intros k []]. }
  cbn [Timer.new Timer.intv TO_interval map fst] in I, K.
  split; [exact D |]. split; [| split; [| exact K]].
  - intros k H. specialize (I k H). cbn [In] in I. intuition.
  - pose proof (NoDup_incl_length D I) as L.
    rewrite length_map in L. exact L.
Qed.
